(** * go-pdf-builder: the template parser, the template cache, variable
      resolution, loop expansion and font set-up, embedded from the Go sources

    Part I holds the definitions, one module per Go package or file:
      - [strings]    the functions of Go's [strings] package that the code calls
      - [models]     internal/models/pdf_elements.go
      - [utils]      internal/utils/helpers.go
      - [os]         the file system as [os.Stat] and [os.Open] see it
      - [cache]      internal/cache/template_cache.go
      - [csv]        encoding/csv, as far as csv_parser.go configures and calls it
      - [parsers]    internal/parsers/csv_parser.go
      - [generators] internal/generators/pdf_generator.go
      - [legacy]     invoice_from_csv_template.go (the first renderer)
    Part II holds the lemmas and the theorems on the caching, parsing,
    resolution, loop and font behaviour; Part III holds further properties
    of the same functions and of their callers.

    Conventions of the embedding.
      - A Go [string] is a Rocq [string] (a sequence of bytes).
      - A [float64] coordinate is a rational [Q]: finite values with exact
        arithmetic.  NaN, the infinities and rounding are outside the model.
      - A [time.Time] is a [Z]: nanoseconds since Go's zero time, so that the
        zero value of [time.Time] is [0]; a [time.Duration] is a [Z] too.
        Every reading of the clock ([time.Now], [time.Since]) is an argument
        of the function that reads it.
      - A Go [map] is a [gmap]; the order in which [range] visits a map is
        unspecified in Go, so every function that ranges over a map takes the
        visiting order as an argument ([RangeOrder]) and the theorems hold for
        every order.
      - [interface{}] values decoded from JSON are the tagged union [Value].
      - An [*fpdf.Fpdf] is the list of the calls made on it, oldest first.
      - Library functions whose result the code only passes along (number
        parsing, Unicode case mapping, [%v] formatting, MD5, the encoders,
        the cursor of the drawing backend) are the fields of the class
        [Externals]; the JSON text of an element ([PDFElement.String]) is a
        variable of the sections that hash elements. *)

From Stdlib Require Import ZArith QArith Lia Lqa Ascii String.
From stdpp Require Import base option list gmap strings.

Set Warnings "-register-all".
Set Default Proof Using "Type".

Local Open Scope Z_scope.

(** * Part I: definitions *)

(** ** Values decoded from the request body *)

Inductive Value :=
  | VNil
  | VBool (b : bool)
  | VNumber (q : Q)
  | VString (s : string)
  | VList (items : list Value)
  | VMap (fields : gmap string Value).

(** The order in which one [range] statement visits a map. *)
Definition RangeOrder (V : Type) : Type := gmap string V → list (string * V).

Definition range_ok {V} (order : RangeOrder V) : Prop :=
  ∀ m, order m ≡ₚ map_to_list m.

(** ** The drawing backend: the calls the code makes on an [*fpdf.Fpdf] *)

Module fpdf.

(** What an [Image] call draws: a file named by the template or the data, or
    the temporary PNG file that holds an encoded QR code or barcode. *)
Inductive ImageFile :=
  | Path (name : string)
  | TempQR (content : string)
  | TempBarcode (format content : string).

Inductive Call :=
  | AddPage
  | AddUTF8Font (family style file : string)
  | SetFont (family style : string) (size : Q)
  | SetTextColor (r g b : Z)
  | SetDrawColor (r g b : Z)
  | SetFillColor (r g b : Z)
  | SetLineWidth (width : Q)
  | SetXY (x y : Q)
  | TransformBegin
  | TransformRotate (angle : Z) (x y : Q)
  | TransformEnd
  | MultiCell (w h : Q) (txt border align : string)
  | CellFormat (w h : Q) (txt border align : string)
  | Rect (x y w h : Q) (style : string)
  | Image (file : ImageFile) (x y w h : Q).

Abbreviation Fpdf := (list Call).

End fpdf.

(** ** Library functions taken as parameters *)

Class Externals := {
  (** [strconv.ParseFloat(s, 64)]: [None] when it returns an error. *)
  strconv_ParseFloat : string → option Q;
  (** [strconv.Atoi]: [None] when it returns an error. *)
  strconv_Atoi : string → option Z;
  (** [strings.ToLower], [strings.ToUpper], [strings.EqualFold]. *)
  strings_ToLower : string → string;
  strings_ToUpper : string → string;
  strings_EqualFold : string → string → bool;
  (** [fmt.Sprintf("%v", v)]. *)
  fmt_Sprint : Value → string;
  (** [hex(md5(s))], as [fmt.Sprintf("%x", h.Sum(nil))] prints it. *)
  md5_hex : string → string;
  (** [qrcode.Encode(content, qrcode.Medium, 256)] returns no error. *)
  qrcode_Encode_ok : string → bool;
  (** The encoder chosen by the upper-cased format returns no error. *)
  barcode_Encode_ok : string → string → bool;
  (** [pdf.GetY()]: the cursor of the backend after the calls made so far. *)
  fpdf_GetY : fpdf.Fpdf → Q;
  (** [math.Round]. *)
  math_Round : Q → Q;
}.

(** ** Go's [strings] package, byte-wise *)

Module strings.

Definition HasPrefix (s prefix : string) : bool := String.prefix prefix s.

Definition HasSuffix (s suffix : string) : bool :=
  String.prefix (String.rev suffix) (String.rev s).

(** [Contains s substr]: [substr] occurs in [s]. *)
Fixpoint Contains (s substr : string) : bool :=
  String.prefix substr s ||
  match s with
  | EmptyString => false
  | String _ s' => Contains s' substr
  end.

(** [ReplaceAll s old new] for a non-empty [old]: the non-overlapping
    occurrences of [old], found from the left, are replaced by [new].
    [skip] counts the bytes of a matched occurrence still to be dropped.
    (For an empty [old] Go inserts [new] around every character; no caller
    in this repository passes an empty [old], and the model returns [s].) *)
Fixpoint replace_from (old new : string) (skip : nat) (s : string) : string :=
  match s with
  | EmptyString => EmptyString
  | String c s' =>
      match skip with
      | S k => replace_from old new k s'
      | O =>
          if String.prefix old s
          then new +:+ replace_from old new (String.length old - 1) s'
          else String c (replace_from old new 0 s')
      end
  end.

Definition ReplaceAll (s old new : string) : string :=
  match old with
  | EmptyString => s
  | _ => replace_from old new 0 s
  end.

Definition in_cutset (cutset : string) (c : ascii) : bool :=
  bool_decide (c ∈ list_ascii_of_string cutset).

Fixpoint TrimLeft (s cutset : string) : string :=
  match s with
  | EmptyString => EmptyString
  | String c s' => if in_cutset cutset c then TrimLeft s' cutset else s
  end.

Definition TrimRight (s cutset : string) : string :=
  String.rev (TrimLeft (String.rev s) cutset).

Definition Trim (s cutset : string) : string :=
  TrimRight (TrimLeft s cutset) cutset.

Definition TrimSpace (s : string) : string :=
  Trim s (String " "%char (String "009"%char (String "010"%char
         (String "011"%char (String "012"%char (String "013"%char
          EmptyString)))))).

(** [Split s sep] for a non-empty [sep]; [cur] is the part of the current
    field that has been read. *)
Fixpoint split_from (sep : string) (skip : nat) (cur : string) (s : string)
  : list string :=
  match s with
  | EmptyString => [cur]
  | String c s' =>
      match skip with
      | S k => split_from sep k cur s'
      | O =>
          if String.prefix sep s
          then cur :: split_from sep (String.length sep - 1) EmptyString s'
          else split_from sep 0 (cur +:+ String c EmptyString) s'
      end
  end.

Definition Split (s sep : string) : list string :=
  split_from sep 0 EmptyString s.

(** [s[:n]] for an [n] within the length of [s]. *)
Fixpoint slice_to (n : nat) (s : string) : string :=
  match n, s with
  | S n, String c s' => String c (slice_to n s')
  | _, _ => EmptyString
  end.

(** The string that holds one double quote character. *)
Definition quote : string := String "034"%char EmptyString.

End strings.

(** ** [float64] comparisons, on the rationals *)

Module float64.

Definition ltb (a b : Q) : bool := negb (Qle_bool b a).
Definition leb (a b : Q) : bool := Qle_bool a b.
Definition eqb (a b : Q) : bool := Qeq_bool a b.

End float64.

(** ** internal/models/pdf_elements.go *)

Module models.

(** [type ElementType string] and its constants. *)
Definition ElementType := string.
Definition ElementTypeText : ElementType := "text".
Definition ElementTypeBox : ElementType := "box".
Definition ElementTypeImage : ElementType := "image".
Definition ElementTypeQR : ElementType := "qr".
Definition ElementTypeBarcode : ElementType := "barcode".
Definition ElementTypeTable : ElementType := "table".

Module Position.
Record t := mk { X : Q; Y : Q }.
End Position.

Module Size.
Record t := mk { Width : Q; Height : Q }.
End Size.

Module Font.
Record t := mk { Family : string; Style : string; Size : Q }.
End Font.

Module Color.
Record t := mk { R : Z; G : Z; B : Z; IsSet : bool }.
End Color.

Module Style.
Record t := mk {
  Font : Font.t;
  Border : string;
  Align : string;
  RotateDegree : Z;
  RotateType : string;
  TextColor : Color.t;
  Background : Color.t;
  ImageSrc : string;
}.
End Style.

Module TableColumn.
Record t := mk {
  Field : string;
  Width : Q;
  Align : string;
  FontStyle : string;
}.
End TableColumn.

Module PDFElement.
Record t := mk {
  Type_ : ElementType;
  Method : string;
  Text : string;
  VariableName : string;
  Position : Position.t;
  Size : Size.t;
  Style : Style.t;
  LoopField : string;
  Columns : list TableColumn.t;
  QRContent : string;
  BarcodeFormat : string;
  BarcodeContent : string;
}.

(** [e.BarcodeFormat = v] *)
Definition set_BarcodeFormat (v : string) (e : t) : t :=
  mk (Type_ e) (Method e) (Text e) (VariableName e) (Position e) (Size e)
     (Style e) (LoopField e) (Columns e) (QRContent e) v (BarcodeContent e).

(** [e.Position.Y = y] *)
Definition set_Position_Y (y : Q) (e : t) : t :=
  mk (Type_ e) (Method e) (Text e) (VariableName e)
     (Position.mk (Position.X (Position e)) y) (Size e)
     (Style e) (LoopField e) (Columns e) (QRContent e) (BarcodeFormat e)
     (BarcodeContent e).
End PDFElement.

Import PDFElement.

(** The errors [Validate] builds with [fmt.Errorf]. *)
Inductive ValidateError :=
  | ErrTypeRequired
  | ErrInvalidPosition (x y : Q)
  | ErrInvalidSize (width height : Q)
  | ErrQRContent
  | ErrBarcodeContent
  | ErrImageSource.

(** [s == ""] *)
Definition is_empty (s : string) : bool := bool_decide (s = "").

(** [func (e *PDFElement) Validate() error]: the receiver is a pointer, so
    the element as the call leaves it is returned along with the error. *)
Definition Validate (e : t) : t * option ValidateError :=
  if is_empty (Type_ e) then (e, Some ErrTypeRequired)
  else if float64.ltb (Position.X (Position e)) 0
          || float64.ltb (Position.Y (Position e)) 0
  then (e, Some (ErrInvalidPosition (Position.X (Position e))
                                    (Position.Y (Position e))))
  else if float64.leb (Size.Width (Size e)) 0
          || float64.leb (Size.Height (Size e)) 0
  then (e, Some (ErrInvalidSize (Size.Width (Size e)) (Size.Height (Size e))))
  else if bool_decide (Type_ e = ElementTypeQR) then
    if is_empty (QRContent e) && is_empty (VariableName e)
    then (e, Some ErrQRContent)
    else (e, None)
  else if bool_decide (Type_ e = ElementTypeBarcode) then
    if is_empty (BarcodeContent e) && is_empty (VariableName e)
    then (e, Some ErrBarcodeContent)
    else if is_empty (BarcodeFormat e)
    then (set_BarcodeFormat "Code128" e, None)
    else (e, None)
  else if bool_decide (Type_ e = ElementTypeImage) then
    if is_empty (Style.ImageSrc (Style e)) && is_empty (VariableName e)
    then (e, Some ErrImageSource)
    else (e, None)
  else (e, None).

Definition IsLoopElement (e : t) : bool := negb (is_empty (LoopField e)).

(** [GetTextContent]: [data[e.VariableName]] is formatted with [%v]. *)
Definition GetTextContent `{Externals} (e : t) (data : gmap string Value)
  : string :=
  let content := Text e in
  let content :=
    if bool_decide (Type_ e = ElementTypeQR) then
      if negb (is_empty (QRContent e)) then QRContent e
      else if negb (is_empty (VariableName e)) then
        match data !! VariableName e with
        | Some val => fmt_Sprint val
        | None => content
        end
      else content
    else content in
  let content :=
    if bool_decide (Type_ e = ElementTypeBarcode) then
      if negb (is_empty (BarcodeContent e)) then BarcodeContent e
      else if negb (is_empty (VariableName e)) then
        match data !! VariableName e with
        | Some val => fmt_Sprint val
        | None => content
        end
      else content
    else content in
  content.

(** [Clone]: a copy of the struct with an array of its own for [Columns]; as
    a value it equals the receiver. *)
Definition Clone (e : t) : t := e.


End models.

(** ** internal/utils/helpers.go *)

Module utils.

Section with_externals.
Context `{Externals}.

Definition ParseFloat (s : string) : Q :=
  if models.is_empty s then 0%Q
  else match strconv_ParseFloat s with
       | Some f => f
       | None => 0%Q
       end.

Definition ParseInt (s : string) : Z :=
  if models.is_empty s then 0
  else match strconv_Atoi s with
       | Some i => i
       | None => 0
       end.

(** ["{{" + key + "}}"] *)
Definition placeholder (key : string) : string := "{{" +:+ key +:+ "}}".

(** [ReplaceVariables]: one [ReplaceAll] per entry of [data], in the order
    in which [range] visits them. *)
Definition ReplaceVariables (order : RangeOrder Value)
    (text : string) (data : gmap string Value) : string :=
  fold_left
    (λ result kv, strings.ReplaceAll result (placeholder kv.1) (fmt_Sprint kv.2))
    (order data) text.

(** The loop [for inputKey, val := range data] of [ReplaceVariablesInArray]:
    the first entry visited whose key, without its trailing colons, equals
    [name] up to case. *)
Definition fold_match (order : RangeOrder Value) (data : gmap string Value)
    (name : string) : option (string * Value) :=
  List.find
    (λ kv, strings_EqualFold (strings.TrimRight kv.1 ":") name)
    (order data).

(** One binding applied to [text]: the exact key first, then the match up to
    case, else [text] as it is. *)
Definition replace_one (order : RangeOrder Value) (data : gmap string Value)
    (text name : string) : string :=
  match data !! name with
  | Some val => strings.ReplaceAll text (placeholder name) (fmt_Sprint val)
  | None =>
      match fold_match order data name with
      | Some (_, val) =>
          strings.ReplaceAll text (placeholder name) (fmt_Sprint val)
      | None => text
      end
  end.

(** [ReplaceVariablesInArray]; [order i] is the order of the [range] run for
    the [i]-th entry of the list (for the one entry of a single binding,
    [order 0]). *)
Definition ReplaceVariablesInArray (order : nat → RangeOrder Value)
    (text variableName : string) (data : gmap string Value) : string :=
  if negb (strings.HasPrefix variableName "[")
     || negb (strings.HasSuffix variableName "]")
  then replace_one (order 0%nat) data text variableName
  else
    let varsStr := strings.Trim variableName "[]" in
    let vars := strings.Split varsStr "," in
    (fold_left
       (λ '(i, result) varName,
          let cleanVar := strings.Trim (strings.Trim varName strings.quote) " " in
          (S i, replace_one (order i) data result cleanVar))
       vars (0%nat, text)).2.

Definition GetArrayFieldValue (item : Value) (fieldName : string) : string :=
  match item with
  | VMap itemMap =>
      match itemMap !! fieldName with
      | Some val => fmt_Sprint val
      | None => ""
      end
  | _ => ""
  end.

Definition IsValidPosition (x y : Q) : bool :=
  float64.leb 0 x && float64.leb 0 y.

Definition IsValidSize (width height : Q) : bool :=
  float64.ltb 0 width && float64.ltb 0 height.

Definition NormalizeAlign (align : string) : string :=
  let a := strings_ToUpper align in
  if bool_decide (a = "LEFT") || bool_decide (a = "L") then "L"
  else if bool_decide (a = "CENTER") || bool_decide (a = "C") then "C"
  else if bool_decide (a = "RIGHT") || bool_decide (a = "R") then "R"
  else "L".

(** [Coalesce(values...)]: the first non-empty string. *)
Definition Coalesce (values : list string) : string :=
  default "" (List.find (λ v, negb (models.is_empty v)) values).

(** [SafeString]: the empty string for [nil]. *)
Definition SafeString (value : Value) : string :=
  match value with
  | VNil => ""
  | _ => fmt_Sprint value
  end.

(** [TruncateString]; [None] when the slice expression [s[:maxLen]] panics,
    which it does for a negative [maxLen]. *)
Definition TruncateString (s : string) (maxLen : Z) : option string :=
  if Z.of_nat (String.length s) <=? maxLen then Some s
  else if maxLen <? 0 then None
  else Some (strings.slice_to (Z.to_nat maxLen) s +:+ "...").

Definition IsNumeric (s : string) : bool :=
  match strconv_ParseFloat s with
  | Some _ => true
  | None => false
  end.

End with_externals.

End utils.

(** ** The file system *)

Module os.

(** A file: the records that the lexer of encoding/csv finds in its bytes, in
    order ([None] for a record that is malformed, a bare quote for instance),
    and its modification time. *)
Module File.
Record t := mk {
  records : list (option (list string));
  ModTime : Z;
}.
End File.

Abbreviation FileSystem := (gmap string File.t).

(** [os.Stat(name)]: [None] for an error.  The empty name is no file. *)
Definition Stat (fs : FileSystem) (name : string) : option File.t :=
  if models.is_empty name then None else fs !! name.

(** [os.Open(name)] *)
Definition Open (fs : FileSystem) (name : string) : option File.t :=
  Stat fs name.

End os.

(** ** internal/cache/template_cache.go *)

Module cache.

Import models.

Module CacheEntry.
Record t := mk {
  Elements : list PDFElement.t;
  Hash : string;
  CreatedAt : Z;
  AccessedAt : Z;
  FileModTime : Z;
}.

(** [entry.AccessedAt = now] *)
Definition set_AccessedAt (now : Z) (e : t) : t :=
  mk (Elements e) (Hash e) (CreatedAt e) now (FileModTime e).
End CacheEntry.

(** The struct without its mutex; what is done with [mu] is in the log. *)
Module TemplateCache.
Record t := mk {
  entries : gmap string CacheEntry.t;
  maxSize : Z;
  ttl : Z;
}.

Definition set_entries (m : gmap string CacheEntry.t) (tc : t) : t :=
  mk m (maxSize tc) (ttl tc).
End TemplateCache.

Import CacheEntry TemplateCache.

(** What a method does with the mutex and with the memory the mutex guards:
    [tc.mu] is taken or released in shared ([RLock]) or exclusive ([Lock])
    mode; the map [tc.entries] is read or written (an insertion, a [delete],
    a new map); a field of an entry that the map points to is written. *)
Inductive Event :=
  | RLock
  | RUnlock
  | Lock
  | Unlock
  | ReadMap
  | WriteMap
  | WriteEntry.

(** A method of [*TemplateCache]: from the cache to a result, the cache as
    the method leaves it, and the events in the order in which they occur. *)
Definition M (A : Type) : Type := TemplateCache.t → A * TemplateCache.t * list Event.

#[global] Instance M_ret : MRet M := λ A a tc, (a, tc, []).

#[global] Instance M_bind : MBind M := λ A B f m tc,
  let '(a, tc1, log1) := m tc in
  let '(b, tc2, log2) := f a tc1 in
  (b, tc2, log1 ++ log2).

Definition emit (ev : Event) : M unit := λ tc, (tt, tc, [ev]).

(** [defer release()] around the rest of the body. *)
Definition defer {A} (release : Event) (body : M A) : M A :=
  a ← body; emit release;; mret a.

(** [tc.entries[key]], [len(tc.entries)], [range tc.entries] *)
Definition read_entries : M (gmap string CacheEntry.t) :=
  λ tc, (entries tc, tc, [ReadMap]).

(** [tc.entries[key] = entry] *)
Definition store (key : string) (entry : CacheEntry.t) : M unit :=
  λ tc, (tt, set_entries (<[key := entry]> (entries tc)) tc, [WriteMap]).

(** [delete(tc.entries, key)] *)
Definition delete_key (key : string) : M unit :=
  λ tc, (tt, set_entries (delete key (entries tc)) tc, [WriteMap]).

(** [entry.AccessedAt = now], for the entry that [tc.entries[key]] points to *)
Definition touch (key : string) (now : Z) : M unit :=
  λ tc, (tt, set_entries (alter (set_AccessedAt now) key (entries tc)) tc,
         [WriteEntry]).

(** [tc.ttl], [tc.maxSize]: fields that no method writes. *)
Definition get_ttl : M Z := λ tc, (ttl tc, tc, []).
Definition get_maxSize : M Z := λ tc, (maxSize tc, tc, []).

(** The three components of a run. *)
Definition result {A} (r : A * TemplateCache.t * list Event) : A := r.1.1.
Definition final {A} (r : A * TemplateCache.t * list Event) : TemplateCache.t := r.1.2.
Definition events {A} (r : A * TemplateCache.t * list Event) : list Event := r.2.

(** [NewTemplateCache]; the clean-up goroutine it starts is [cleanup_tick]. *)
Definition NewTemplateCache (maxSize ttl : Z) : TemplateCache.t :=
  TemplateCache.mk ∅ maxSize ttl.

(** [Get]; [now_since] is the clock read by [time.Since], [now_touch] the
    clock read for the new access time. *)
Definition Get (fs : os.FileSystem) (now_since now_touch : Z)
    (filePath : string) : M (option (list PDFElement.t)) :=
  emit RLock;;
  defer RUnlock (
    m ← read_entries;
    match m !! filePath with
    | None => mret None
    | Some entry =>
        match os.Stat fs filePath with
        | None => delete_key filePath;; mret None
        | Some fileInfo =>
            if FileModTime entry <? os.File.ModTime fileInfo
            then delete_key filePath;; mret None
            else
              ttl ← get_ttl;
              if ttl <? now_since - CreatedAt entry
              then delete_key filePath;; mret None
              else touch filePath now_touch;; mret (Some (Elements entry))
        end
    end).

Section with_externals.
Context `{Externals}.

(** [json.MarshalIndent] of an element, as [PDFElement.String] returns it,
    is a function of the element; the hash is a function of the strings. *)
Context (element_String : PDFElement.t → string).

Definition calculateHash (elements : list PDFElement.t) : string :=
  md5_hex (String.concat "" (element_String <$> elements)).

(** The loop of [evictOldest] over the entries in the order [range] visits
    them; the state is [(oldestKey, oldestTime)]. *)
Definition oldest (visited : list (string * CacheEntry.t)) : string * Z :=
  fold_left
    (λ '(oldestKey, oldestTime) '(key, entry),
       if is_empty oldestKey || (AccessedAt entry <? oldestTime)
       then (key, AccessedAt entry)
       else (oldestKey, oldestTime))
    visited ("", 0).

Definition evictOldest (order : RangeOrder CacheEntry.t) : M unit :=
  m ← read_entries;
  let oldestKey := (oldest (order m)).1 in
  if negb (is_empty oldestKey) then delete_key oldestKey else mret tt.

(** [Set]; [now_created] and [now_accessed] are the two readings of the
    clock in the composite literal. *)
Definition Set_ (fs : os.FileSystem) (order : RangeOrder CacheEntry.t)
    (now_created now_accessed : Z)
    (filePath : string) (elements : list PDFElement.t) : M unit :=
  emit Lock;;
  defer Unlock (
    match os.Stat fs filePath with
    | None => mret tt
    | Some fileInfo =>
        let hash := calculateHash elements in
        let entry :=
          CacheEntry.mk elements hash now_created now_accessed
                        (os.File.ModTime fileInfo) in
        store filePath entry;;
        m ← read_entries;
        maxSize ← get_maxSize;
        if maxSize <? Z.of_nat (size m)
        then evictOldest order
        else mret tt
    end).

(** One tick of the ticker in [cleanup]: the entries older than the TTL are
    deleted, under the exclusive lock. *)
Definition cleanup_tick (order : RangeOrder CacheEntry.t) (now : Z) : M unit :=
  emit Lock;;
  m ← read_entries;
  ttl ← get_ttl;
  fold_right
    (λ '(key, entry) rest,
       (if ttl <? now - CreatedAt entry then delete_key key else mret tt);;
       rest)
    (mret tt) (order m);;
  emit Unlock.

Definition Clear : M unit :=
  emit Lock;;
  defer Unlock (λ tc, (tt, set_entries ∅ tc, [WriteMap])).

End with_externals.

(** [Stats]: the number of entries, the capacity and the TTL (which the Go
    code prints with [Duration.String]). *)
Definition Stats : M (Z * Z * Z) :=
  emit RLock;;
  defer RUnlock (
    m ← read_entries;
    maxSize ← get_maxSize;
    ttl ← get_ttl;
    mret (Z.of_nat (size m), maxSize, ttl)).

Module FontCache.
Record t := mk {
  fonts : gmap string bool;
  loaded : bool;
}.
End FontCache.

Definition NewFontCache : FontCache.t := FontCache.mk ∅ false.

Definition IsLoaded (fc : FontCache.t) (fontName : string) : bool :=
  default false (FontCache.fonts fc !! fontName).

Definition MarkLoaded (fontName : string) (fc : FontCache.t) : FontCache.t :=
  FontCache.mk (<[fontName := true]> (FontCache.fonts fc)) (FontCache.loaded fc).

Definition IsSystemLoaded (fc : FontCache.t) : bool := FontCache.loaded fc.

Definition MarkSystemLoaded (fc : FontCache.t) : FontCache.t :=
  FontCache.mk (FontCache.fonts fc) true.

(** [FontCache.Clear] *)
Definition FontCache_Clear (fc : FontCache.t) : FontCache.t :=
  FontCache.mk ∅ false.

End cache.

(** ** encoding/csv, as csv_parser.go configures and calls it *)

Module csv.

(** A [[]string] that [Read] returns: the address of its backing array and
    its length.  Its capacity is the size of the array. *)
Record Slice := mkSlice { arr : nat; len : nat }.

(** The backing arrays that the reader has allocated, by address. *)
Abbreviation Heap := (list (list string)).

Definition array (h : Heap) (s : Slice) : list string :=
  default [] (h !! arr s).

Definition cap (h : Heap) (s : Slice) : nat := length (array h s).

(** The strings that the slice holds now. *)
Definition elems (h : Heap) (s : Slice) : list string :=
  take (len s) (array h s).

Inductive Error :=
  | EOF
  | ErrFieldCount
  | ErrParse.

(** The fields of [csv.Reader] that matter here.  [FieldsPerRecord]: when
    positive, [Read] requires that many fields in every record; when [0],
    [Read] sets it to the number of fields of the first record, so that the
    later records must have as many; when negative, no check is made.
    [ReuseRecord]: [Read] may return a slice that shares the backing array of
    the slice it returned before. *)
Module Reader.
Record t := mk {
  FieldsPerRecord : Z;
  TrimLeadingSpace : bool;
  ReuseRecord : bool;
  lastRecord : option Slice;
}.
End Reader.

Import Reader.

(** [csv.NewReader]: the zero value of every field. *)
Definition NewReader : Reader.t := Reader.mk 0 false false None.

(** The slice that holds the fields of the record just read: [dst] is used
    again when its array is large enough, else a new array is made. *)
Definition fill (h : Heap) (dst : option Slice) (fields : list string)
  : Heap * Slice :=
  match dst with
  | Some d =>
      if (cap h d <? length fields)%nat
      then (h ++ [fields], mkSlice (length h) (length fields))
      else (<[arr d := fields ++ drop (length fields) (array h d)]> h,
            mkSlice (arr d) (length fields))
  | None => (h ++ [fields], mkSlice (length h) (length fields))
  end.

(** [Read] when the next record of the input is [next].  After an error the
    reader is left as it was: the callers stop at the first error. *)
Definition read_record (r : Reader.t) (h : Heap) (next : option (list string))
  : Reader.t * Heap * (Slice + Error) :=
  match next with
  | None => (r, h, inr ErrParse)
  | Some fields =>
      let '(h', record) :=
        fill h (if ReuseRecord r then lastRecord r else None) fields in
      let last := if ReuseRecord r then Some record else lastRecord r in
      let n := Z.of_nat (length fields) in
      if 0 <? FieldsPerRecord r then
        if bool_decide (n ≠ FieldsPerRecord r)
        then (r, h, inr ErrFieldCount)
        else (Reader.mk (FieldsPerRecord r) (TrimLeadingSpace r)
                        (ReuseRecord r) last, h', inl record)
      else if FieldsPerRecord r =? 0 then
        (Reader.mk n (TrimLeadingSpace r) (ReuseRecord r) last, h', inl record)
      else
        (Reader.mk (FieldsPerRecord r) (TrimLeadingSpace r) (ReuseRecord r)
                   last, h', inl record)
  end.

(** [Read] on the records still in the input. *)
Definition Read (r : Reader.t) (input : list (option (list string))) (h : Heap)
  : Reader.t * list (option (list string)) * Heap * (Slice + Error) :=
  match input with
  | [] => (r, [], h, inr EOF)
  | next :: rest =>
      let '(r', h', out) := read_record r h next in (r', rest, h', out)
  end.

End csv.

(** ** internal/parsers/csv_parser.go *)

Module parsers.

Import models.

Inductive Result (A E : Type) :=
  | Ok (a : A)
  | Err (e : E).
Arguments Ok {A E} a.
Arguments Err {A E} e.

(** The errors of [parseCSVFile]. *)
Inductive ParseError :=
  | ErrOpen
  | ErrHeaders (e : csv.Error)
  | ErrRow (row : Z) (e : csv.Error).

Section with_externals.
Context `{Externals}.

(** [data[header] = record[i]] for every [i] below both lengths. *)
Definition row_data (headers record : list string) : gmap string string :=
  fold_left (λ data hr, <[hr.1 := hr.2]> data) (zip headers record) ∅.

(** [data[key]]: the empty string for a missing key. *)
Definition get (data : gmap string string) (key : string) : string :=
  default "" (data !! key).

Definition parseElementType (typeField methodField : string) : ElementType :=
  let explicit :=
    if negb (is_empty typeField) then
      let t := strings_ToLower typeField in
      if bool_decide (t = "text") then Some ElementTypeText
      else if bool_decide (t = "box") then Some ElementTypeBox
      else if bool_decide (t = "image") then Some ElementTypeImage
      else if bool_decide (t = "qr") then Some ElementTypeQR
      else if bool_decide (t = "barcode") then Some ElementTypeBarcode
      else if bool_decide (t = "table") then Some ElementTypeTable
      else None
    else None in
  match explicit with
  | Some t => t
  | None =>
      if bool_decide (methodField = "MultiCell")
         || bool_decide (methodField = "Cell") then ElementTypeText
      else if bool_decide (methodField = "Rect") then ElementTypeBox
      else if bool_decide (methodField = "Image") then ElementTypeImage
      else if bool_decide (methodField = "QR") then ElementTypeQR
      else if bool_decide (methodField = "Barcode") then ElementTypeBarcode
      else ElementTypeText
  end.

(** [parseColumns]; it returns no error. *)
Definition parseColumns (columnsData : string) : list TableColumn.t :=
  omap
    (λ part,
       let columnParts := strings.Split (strings.TrimSpace part) ":" in
       if (2 <=? length columnParts)%nat then
         Some (TableColumn.mk
                 (strings.TrimSpace (default "" (columnParts !! 0%nat)))
                 (utils.ParseFloat (default "" (columnParts !! 1%nat)))
                 (if (3 <=? length columnParts)%nat
                  then utils.NormalizeAlign (default "" (columnParts !! 2%nat))
                  else "L")
                 (if (4 <=? length columnParts)%nat
                  then default "" (columnParts !! 3%nat)
                  else ""))
       else None)
    (strings.Split columnsData ",").

(** [createElementFromRow]; it returns no error. *)
Definition createElementFromRow (headers record : list string)
  : PDFElement.t :=
  let data := row_data headers record in
  let size := utils.ParseFloat (get data "fontSize") in
  PDFElement.mk
    (parseElementType (get data "type") (get data "method"))
    (get data "method")
    (get data "text")
    (get data "variableName")
    (Position.mk (utils.ParseFloat (get data "x"))
                 (utils.ParseFloat (get data "y")))
    (Size.mk (utils.ParseFloat (get data "width"))
             (utils.ParseFloat (get data "height")))
    (Style.mk
       (Font.mk (utils.Coalesce [get data "font"; "Tahoma"])
                (get data "fontStyle")
                (if float64.eqb size 0 then 10%Q else size))
       (get data "border")
       (utils.NormalizeAlign (get data "align"))
       (utils.ParseInt (get data "rotateDegree"))
       (get data "rotateType")
       (Color.mk (utils.ParseInt (get data "colorR"))
                 (utils.ParseInt (get data "colorG"))
                 (utils.ParseInt (get data "colorB"))
                 (negb (is_empty (get data "colorR"))
                  || negb (is_empty (get data "colorG"))
                  || negb (is_empty (get data "colorB"))))
       (Color.mk (utils.ParseInt (get data "bgColorR"))
                 (utils.ParseInt (get data "bgColorG"))
                 (utils.ParseInt (get data "bgColorB"))
                 (bool_decide (get data "background" = "1")))
       (get data "imageSrc"))
    (get data "loopField")
    (if negb (is_empty (get data "columns"))
     then parseColumns (get data "columns")
     else [])
    (get data "qrContent")
    (utils.Coalesce [get data "barcodeFormat"; "Code128"])
    (get data "barcodeContent").

(** The loop [for { record, err := reader.Read() ... }] of [parseCSVFile] on
    the records still in the input.  [headers] is the slice that the first
    [Read] returned: what it holds is read from the heap when it is used. *)
Fixpoint parseRows (input : list (option (list string)))
    (reader : csv.Reader.t) (h : csv.Heap) (headers : csv.Slice)
    (elements : list PDFElement.t) (rowIndex : Z)
  : Result (list PDFElement.t) ParseError :=
  match input with
  | [] => Ok elements
  | next :: rest =>
      match csv.read_record reader h next with
      | (_, _, inr err) => Err (ErrRow (rowIndex + 1) err)
      | (reader, h, inl record) =>
          let rowIndex := rowIndex + 1 in
          if bool_decide (csv.len record ≠ csv.len headers)
          then parseRows rest reader h headers elements rowIndex
          else
            let element :=
              createElementFromRow (csv.elems h headers) (csv.elems h record) in
            match Validate element with
            | (_, Some _) => parseRows rest reader h headers elements rowIndex
            | (element, None) =>
                parseRows rest reader h headers (elements ++ [element]) rowIndex
            end
      end
  end.

Definition parseCSVFile (fs : os.FileSystem) (filePath : string)
  : Result (list PDFElement.t) ParseError :=
  match os.Open fs filePath with
  | None => Err ErrOpen
  | Some file =>
      let reader :=
        csv.Reader.mk (csv.Reader.FieldsPerRecord csv.NewReader) true true
                      (csv.Reader.lastRecord csv.NewReader) in
      match csv.Read reader (os.File.records file) [] with
      | (_, _, _, inr err) => Err (ErrHeaders err)
      | (reader, input, h, inl headers) =>
          parseRows input reader h headers [] 1
      end
  end.

(** The loop of [ParseCSVFromReader]: the loop of [parseCSVFile] written
    out a second time, without the log. *)
Fixpoint readerRows (input : list (option (list string)))
    (csvReader : csv.Reader.t) (h : csv.Heap) (headers : csv.Slice)
    (elements : list PDFElement.t) (rowIndex : Z)
  : Result (list PDFElement.t) ParseError :=
  match input with
  | [] => Ok elements
  | next :: rest =>
      match csv.read_record csvReader h next with
      | (_, _, inr err) => Err (ErrRow (rowIndex + 1) err)
      | (csvReader, h, inl record) =>
          let rowIndex := rowIndex + 1 in
          if bool_decide (csv.len record ≠ csv.len headers)
          then readerRows rest csvReader h headers elements rowIndex
          else
            match Validate (createElementFromRow (csv.elems h headers)
                                                 (csv.elems h record)) with
            | (_, Some _) => readerRows rest csvReader h headers elements rowIndex
            | (element, None) =>
                readerRows rest csvReader h headers (elements ++ [element])
                           rowIndex
            end
      end
  end.

(** [ParseCSVFromReader]: [records] are the records that the lexer finds
    in the bytes of the [io.Reader]. *)
Definition ParseCSVFromReader (records : list (option (list string)))
  : Result (list PDFElement.t) ParseError :=
  let csvReader :=
    csv.Reader.mk (csv.Reader.FieldsPerRecord csv.NewReader) true true
                  (csv.Reader.lastRecord csv.NewReader) in
  match csv.Read csvReader records [] with
  | (_, _, _, inr err) => Err (ErrHeaders err)
  | (csvReader, input, h, inl headers) =>
      readerRows input csvReader h headers [] 1
  end.

(** [GetCacheStats] and [ClearCache] hand over to the cache. *)
Definition GetCacheStats : cache.M (Z * Z * Z) := cache.Stats.

Definition ClearCache : cache.M unit := cache.Clear.

Context (element_String : PDFElement.t → string).

(** [ParseCSV], a method of the parser that holds the process-wide cache.
    The file system does not change during one call; the four readings of
    the clock are those of [Get] and of [Set], in the order of the calls. *)
Definition ParseCSV (fs : os.FileSystem)
    (order : RangeOrder cache.CacheEntry.t)
    (now_since now_touch now_created now_accessed : Z) (filePath : string)
  : cache.M (Result (list PDFElement.t) ParseError) :=
  found ← cache.Get fs now_since now_touch filePath;
  match found with
  | Some elements => mret (Ok elements)
  | None =>
      match parseCSVFile fs filePath with
      | Err err => mret (Err err)
      | Ok elements =>
          cache.Set_ element_String fs order now_created now_accessed
                     filePath elements;;
          mret (Ok elements)
      end
  end.

End with_externals.

End parsers.

(** ** internal/generators/pdf_generator.go *)

Module generators.

Import models fpdf.

(** The errors the [process...] methods build with [fmt.Errorf]. *)
Inductive Error :=
  | ErrValidation (e : ValidateError)
  | ErrLoopFieldFormat (loopField : string)
  | ErrArrayNotFound (arrayName : string)
  | ErrNotAnArray (arrayName : string)
  | ErrImagePath
  | ErrImageNotFound (imagePath : string)
  | ErrQREmpty
  | ErrQREncode
  | ErrBarcodeEmpty
  | ErrBarcodeEncode
  | ErrUnsupportedType (t : string).

(** What a [process...] method leaves behind: the map [g.lastYPositions],
    the calls made on the document so far, and the error it returns. *)
Definition Outcome : Type := gmap string Q * Fpdf * option Error.

Section with_externals.
Context `{Externals}.

(** The font files of [setupFonts], by font name. *)
Definition fonts : gmap string string :=
  {[ "Tahoma" := "tahoma.ttf"; "TahomaB" := "tahomabd.TTF" ]}.

(** [filepath.Join("./fonts", fontFile)] *)
Definition fontPath (fontFile : string) : string := "fonts/" +:+ fontFile.

(** [setupFonts]: [fc] is the font cache that [g.fontCache] points to, the
    one process-wide [FontCache] that [cache.GetFontCache] hands out; [pdf]
    is the document the fonts are to be added to. *)
Definition setupFonts (fs : os.FileSystem) (order : RangeOrder string)
    (fc : cache.FontCache.t) (pdf : Fpdf) : cache.FontCache.t * Fpdf :=
  if cache.IsSystemLoaded fc then (fc, pdf)
  else
    let '(fc, pdf) :=
      fold_left
        (λ '(fc, pdf) '(fontName, fontFile),
           if negb (cache.IsLoaded fc fontName) then
             match os.Stat fs (fontPath fontFile) with
             | Some _ =>
                 (cache.MarkLoaded fontName fc,
                  pdf ++ [if bool_decide (fontName = "TahomaB")
                          then AddUTF8Font "Tahoma" "B" fontFile
                          else AddUTF8Font fontName "" fontFile])
             | None => (fc, pdf)
             end
           else (fc, pdf))
        (order fonts) (fc, pdf) in
    (cache.MarkSystemLoaded fc, pdf ++ [SetFont "Tahoma" "" 10]).

(** The function [New] of the pool that [NewPDFGenerator] builds: a new
    document, then [setupFonts] on it. *)
Definition pool_New (fs : os.FileSystem) (order : RangeOrder string)
    (fc : cache.FontCache.t) : cache.FontCache.t * Fpdf :=
  setupFonts fs order fc [].

Definition setFont (pdf : Fpdf) (font : Font.t) : Fpdf :=
  let family :=
    if is_empty (Font.Family font) then "Tahoma" else Font.Family font in
  let size :=
    if float64.eqb (Font.Size font) 0 then 10%Q else Font.Size font in
  pdf ++ [SetFont family (Font.Style font) size].

Definition replaceVariables (order : nat → RangeOrder Value)
    (text variableName : string) (data : gmap string Value) : string :=
  if negb (is_empty variableName)
  then utils.ReplaceVariablesInArray order text variableName data
  else utils.ReplaceVariables (order 0%nat) text data.

Definition calculateRotationPoint (element : PDFElement.t) : Q * Q :=
  let x := Position.X (PDFElement.Position element) in
  let y := Position.Y (PDFElement.Position element) in
  let w := Size.Width (PDFElement.Size element) in
  let h := Size.Height (PDFElement.Size element) in
  let rt := Style.RotateType (PDFElement.Style element) in
  if bool_decide (rt = "left") then (x, y + h / 2)%Q
  else if bool_decide (rt = "top") then (x + w / 2, y)%Q
  else (x + w / 2, y + h / 2)%Q.

Definition processTextElement (order : nat → RangeOrder Value) (pdf : Fpdf)
    (element : PDFElement.t) (data : gmap string Value) : Fpdf :=
  let style := PDFElement.Style element in
  let pdf := setFont pdf (Style.Font style) in
  let pdf :=
    if Color.IsSet (Style.TextColor style)
    then pdf ++ [SetTextColor (Color.R (Style.TextColor style))
                              (Color.G (Style.TextColor style))
                              (Color.B (Style.TextColor style))]
    else pdf in
  let text :=
    replaceVariables order (PDFElement.Text element)
                     (PDFElement.VariableName element) data in
  let rotated := negb (Style.RotateDegree style =? 0) in
  let pdf :=
    if rotated
    then let '(rotateX, rotateY) := calculateRotationPoint element in
         pdf ++ [TransformBegin;
                 TransformRotate (Style.RotateDegree style) rotateX rotateY]
    else pdf in
  let pdf :=
    pdf ++ [SetXY (Position.X (PDFElement.Position element))
                  (Position.Y (PDFElement.Position element))] in
  let pdf :=
    if bool_decide (PDFElement.Method element = "MultiCell")
    then pdf ++ [MultiCell (Size.Width (PDFElement.Size element))
                           (Font.Size (Style.Font style) * (1 # 2))%Q
                           text (Style.Border style) (Style.Align style)]
    else pdf ++ [CellFormat (Size.Width (PDFElement.Size element))
                            (Size.Height (PDFElement.Size element))
                            text (Style.Border style) (Style.Align style)] in
  if rotated then pdf ++ [TransformEnd] else pdf.

Definition processBoxElement (pdf : Fpdf) (element : PDFElement.t) : Fpdf :=
  let style := PDFElement.Style element in
  let pdf :=
    if Color.IsSet (Style.TextColor style)
    then pdf ++ [SetDrawColor (Color.R (Style.TextColor style))
                              (Color.G (Style.TextColor style))
                              (Color.B (Style.TextColor style))]
    else pdf in
  let pdf :=
    if Color.IsSet (Style.Background style)
    then pdf ++ [SetFillColor (Color.R (Style.Background style))
                              (Color.G (Style.Background style))
                              (Color.B (Style.Background style))]
    else pdf in
  let pdf := pdf ++ [SetLineWidth (1 # 5)] in
  pdf ++ [Rect (Position.X (PDFElement.Position element))
               (Position.Y (PDFElement.Position element))
               (Size.Width (PDFElement.Size element))
               (Size.Height (PDFElement.Size element))
               (if Color.IsSet (Style.Background style) then "FD" else "D")].

(** [pdf.Image(file, x, y, width, height, ...)] at the place of the element *)
Definition draw_image (pdf : Fpdf) (file : ImageFile) (element : PDFElement.t)
  : Fpdf :=
  pdf ++ [Image file (Position.X (PDFElement.Position element))
                     (Position.Y (PDFElement.Position element))
                     (Size.Width (PDFElement.Size element))
                     (Size.Height (PDFElement.Size element))].

Definition processImageElement (fs : os.FileSystem) (pdf : Fpdf)
    (element : PDFElement.t) (data : gmap string Value)
  : Fpdf * option Error :=
  let imagePath := Style.ImageSrc (PDFElement.Style element) in
  let imagePath :=
    if is_empty imagePath && negb (is_empty (PDFElement.VariableName element))
    then match data !! PDFElement.VariableName element with
         | Some val => fmt_Sprint val
         | None => imagePath
         end
    else imagePath in
  if is_empty imagePath then (pdf, Some ErrImagePath)
  else match os.Stat fs imagePath with
       | None => (pdf, Some (ErrImageNotFound imagePath))
       | Some _ => (draw_image pdf (Path imagePath) element, None)
       end.

(** [processQRElement]; the temporary file is written and removed without
    an error. *)
Definition processQRElement (order : nat → RangeOrder Value) (pdf : Fpdf)
    (element : PDFElement.t) (data : gmap string Value)
  : Fpdf * option Error :=
  let content := GetTextContent element data in
  let content :=
    if is_empty content
    then replaceVariables order (PDFElement.QRContent element)
                          (PDFElement.VariableName element) data
    else content in
  if is_empty content then (pdf, Some ErrQREmpty)
  else if negb (qrcode_Encode_ok content) then (pdf, Some ErrQREncode)
  else (draw_image pdf (TempQR content) element, None).

(** [processBarcodeElement]; scaling, the PNG encoding and the temporary
    file raise no error of their own. *)
Definition processBarcodeElement (order : nat → RangeOrder Value) (pdf : Fpdf)
    (element : PDFElement.t) (data : gmap string Value)
  : Fpdf * option Error :=
  let content := GetTextContent element data in
  let content :=
    if is_empty content
    then replaceVariables order (PDFElement.BarcodeContent element)
                          (PDFElement.VariableName element) data
    else content in
  if is_empty content then (pdf, Some ErrBarcodeEmpty)
  else if negb (barcode_Encode_ok
                  (strings_ToUpper (PDFElement.BarcodeFormat element)) content)
  then (pdf, Some ErrBarcodeEncode)
  else (draw_image pdf
          (TempBarcode (PDFElement.BarcodeFormat element) content) element,
        None).

(** [processTableElement]: a warning in the log, nothing else. *)
Definition processTableElement (pdf : Fpdf) : Fpdf := pdf.

(** The loop [for _, item := range items] of [processLoopElement]; the state
    is the ledger, the document and [currentY].  [self] is [g.processElement];
    [None] when a call of it does not return. *)
Fixpoint loop_items
    (self : gmap string Q → Fpdf → PDFElement.t → gmap string Value
            → option Outcome)
    (element : PDFElement.t) (data : gmap string Value) (fieldName : string)
    (spacing : Q) (items : list Value) (ledger : gmap string Q) (pdf : Fpdf)
    (currentY : Q) : option (gmap string Q * Fpdf * Q) :=
  match items with
  | [] => Some (ledger, pdf, currentY)
  | item :: rest =>
      let elementCopy := PDFElement.set_Position_Y currentY (Clone element) in
      let itemValue := utils.GetArrayFieldValue item fieldName in
      let itemData :=
        <[PDFElement.LoopField element := VString itemValue]> data in
      match self ledger pdf elementCopy itemData with
      | None => None
      | Some (ledger, pdf, _) =>
          loop_items self element data fieldName spacing rest ledger pdf
                     (currentY + spacing)%Q
      end
  end.

Definition processLoopElement
    (self : gmap string Q → Fpdf → PDFElement.t → gmap string Value
            → option Outcome)
    (ledger : gmap string Q) (pdf : Fpdf) (element : PDFElement.t)
    (data : gmap string Value) : option Outcome :=
  match strings.Split (PDFElement.LoopField element) "." with
  | [arrayName; fieldName] =>
      match data !! arrayName with
      | None => Some (ledger, pdf, Some (ErrArrayNotFound arrayName))
      | Some (VList items) =>
          let currentY := Position.Y (PDFElement.Position element) in
          let spacing := (Size.Height (PDFElement.Size element) + 2)%Q in
          match loop_items self element data fieldName spacing items
                           ledger pdf currentY with
          | None => None
          | Some (ledger, pdf, currentY) =>
              Some (<[arrayName := currentY]> ledger, pdf, None)
          end
      | Some _ => Some (ledger, pdf, Some (ErrNotAnArray arrayName))
      end
  | _ => Some (ledger, pdf,
               Some (ErrLoopFieldFormat (PDFElement.LoopField element)))
  end.

(** [processElement].  The Go function calls [processLoopElement], which
    calls [processElement] again: [fuel] bounds the depth of these calls, and
    the result is [None] when the bound is reached before the call returns. *)
Fixpoint processElement (fuel : nat) (fs : os.FileSystem)
    (order : nat → RangeOrder Value) (ledger : gmap string Q) (pdf : Fpdf)
    (element : PDFElement.t) (data : gmap string Value) : option Outcome :=
  match fuel with
  | O => None
  | S fuel =>
      match Validate element with
      | (_, Some err) => Some (ledger, pdf, Some (ErrValidation err))
      | (element, None) =>
          if IsLoopElement element
          then processLoopElement (processElement fuel fs order)
                                  ledger pdf element data
          else
            let t := PDFElement.Type_ element in
            if bool_decide (t = ElementTypeText)
            then Some (ledger, processTextElement order pdf element data, None)
            else if bool_decide (t = ElementTypeBox)
            then Some (ledger, processBoxElement pdf element, None)
            else if bool_decide (t = ElementTypeImage)
            then let '(pdf, err) := processImageElement fs pdf element data in
                 Some (ledger, pdf, err)
            else if bool_decide (t = ElementTypeQR)
            then let '(pdf, err) := processQRElement order pdf element data in
                 Some (ledger, pdf, err)
            else if bool_decide (t = ElementTypeBarcode)
            then let '(pdf, err) :=
                   processBarcodeElement order pdf element data in
                 Some (ledger, pdf, err)
            else if bool_decide (t = ElementTypeTable)
            then Some (ledger, processTableElement pdf, None)
            else Some (ledger, pdf, Some (ErrUnsupportedType t))
      end
  end.

(** The loop [for _, element := range elements] of [GeneratePDFToBytes] and
    of [GeneratePDF]: an error of an element is logged and the loop goes on.
    Every call of [processElement] may be [fuel] calls deep; [None] when one
    of them does not return. *)
Fixpoint processElements (fuel : nat) (fs : os.FileSystem)
    (order : nat → RangeOrder Value) (ledger : gmap string Q) (pdf : Fpdf)
    (elements : list PDFElement.t) (data : gmap string Value)
  : option (gmap string Q * Fpdf) :=
  match elements with
  | [] => Some (ledger, pdf)
  | element :: rest =>
      match processElement fuel fs order ledger pdf element data with
      | None => None
      | Some (ledger, pdf, _) =>
          processElements fuel fs order ledger pdf rest data
      end
  end.

(** [GeneratePDFToBytes] up to [pdf.Output]: [pdf] is the document that
    [g.pdfPool.Get()] returned.  The result holds the font cache and the
    ledger as the render leaves them and the document as it is written out;
    that same document is what [defer g.pdfPool.Put(pdf)] puts back into the
    pool. *)
Definition GeneratePDFToBytes (fuel : nat) (fs : os.FileSystem)
    (font_order : RangeOrder string) (order : nat → RangeOrder Value)
    (fc : cache.FontCache.t) (ledger : gmap string Q) (pdf : Fpdf)
    (elements : list PDFElement.t) (data : gmap string Value)
  : option (cache.FontCache.t * gmap string Q * Fpdf) :=
  let pdf := pdf ++ [AddPage] in
  let '(fc, pdf) := setupFonts fs font_order fc pdf in
  match processElements fuel fs order ledger pdf elements data with
  | None => None
  | Some (ledger, pdf) => Some (fc, ledger, pdf)
  end.

End with_externals.

End generators.

(** ** invoice_from_csv_template.go *)

Module legacy.

Import fpdf.

Module PDFElement.
Record t := mk {
  Type_ : string;
  Method : string;
  Text : string;
  VariableName : string;
  X : Q;
  Y : Q;
  Width : Q;
  Height : Q;
  Font : string;
  FontStyle : string;
  FontSize : Q;
  Align : string;
  RotateDegree : Z;
  Border : string;
  ColorR : Z;
  ColorG : Z;
  ColorB : Z;
  background : string;
  BGColorR : Z;
  BGColorG : Z;
  BGColorB : Z;
  ImageSrc : string;
  RotateType : string;
  LoopField : string;
}.
End PDFElement.

Import PDFElement.

Definition is_empty (s : string) : bool := bool_decide (s = "").

Section with_externals.
Context `{Externals}.

(** The rotation point of the [switch el.RotateType], for an item drawn at
    height [y]. *)
Definition rotationPoint (el : PDFElement.t) (y : Q) : Q * Q :=
  if bool_decide (RotateType el = "left") then (X el, y + Height el / 2)%Q
  else if bool_decide (RotateType el = "top") then (X el + Width el / 2, y)%Q
  else (X el + Width el / 2, y + Height el / 2)%Q.

(** [pdf.SetFont(el.Font, fontStyle, el.FontSize)] when [el.Font] is set. *)
Definition setFont (pdf : Fpdf) (el : PDFElement.t) : Fpdf :=
  if negb (is_empty (Font el))
  then pdf ++ [SetFont (Font el)
                       (if bool_decide (FontStyle el = "B") then "B" else "")
                       (FontSize el)]
  else pdf.

(** The text of one item of a looping text element: the field of the item,
    put into [el.Text] when there is one, then every other entry of [input]
    except the array itself. *)
Definition itemText (order : RangeOrder Value) (el : PDFElement.t)
    (input : gmap string Value) (arrayName fieldName : string) (item : Value)
  : string :=
  let itemStr := utils.GetArrayFieldValue item fieldName in
  if negb (is_empty (Text el)) then
    fold_left
      (λ itemStr kv,
         if negb (bool_decide (kv.1 = arrayName))
         then strings.ReplaceAll itemStr (utils.placeholder kv.1)
                                 (fmt_Sprint kv.2)
         else itemStr)
      (order input)
      (strings.ReplaceAll (Text el) (utils.placeholder (LoopField el)) itemStr)
  else itemStr.

(** One turn of the loop over the items of a text element: the calls made
    for the item and the new [currentY]. *)
Definition drawTextItem (order : RangeOrder Value) (el : PDFElement.t)
    (input : gmap string Value) (arrayName fieldName : string)
    (pdf : Fpdf) (currentY : Q) (item : Value) : Fpdf * Q :=
  let itemStr := itemText order el input arrayName fieldName item in
  let pdf := pdf ++ [SetXY (X el) currentY] in
  let pdf := setFont pdf el in
  let pdf := pdf ++ [SetTextColor (ColorR el) (ColorG el) (ColorB el)] in
  let '(rotateX, rotateY) := rotationPoint el currentY in
  let rotated := negb (RotateDegree el =? 0) in
  let pdf :=
    if rotated
    then pdf ++ [TransformBegin;
                 TransformRotate (RotateDegree el) rotateX rotateY]
    else pdf in
  let '(pdf, currentY) :=
    if bool_decide (Method el = "MultiCell") then
      let pdf := pdf ++ [MultiCell (Width el) (FontSize el * (1 # 2))%Q
                                   itemStr (Border el) (Align el)] in
      (pdf, (fpdf_GetY pdf + 2)%Q)
    else
      (pdf ++ [CellFormat (Width el) (Height el) itemStr (Border el) (Align el)],
       (currentY + (Height el + 2))%Q) in
  ((if rotated then pdf ++ [TransformEnd] else pdf), currentY).

(** The loop [for _, item := range items] of a text element; [order i] is
    the order of the [range] over [input] for the [i]-th item from [i0]. *)
Fixpoint textLoop (order : nat → RangeOrder Value) (el : PDFElement.t)
    (input : gmap string Value) (arrayName fieldName : string)
    (items : list Value) (i0 : nat) (pdf : Fpdf) (currentY : Q) : Fpdf * Q :=
  match items with
  | [] => (pdf, currentY)
  | item :: rest =>
      let '(pdf, currentY) :=
        drawTextItem (order i0) el input arrayName fieldName pdf currentY item in
      textLoop order el input arrayName fieldName rest (S i0) pdf currentY
  end.

(** One turn of the loop over the items of a box element. *)
Definition drawBoxItem (el : PDFElement.t) (fieldName : string)
    (pdf : Fpdf) (currentY : Q) (item : Value) : Fpdf * Q :=
  match item with
  | VMap itemMap =>
      match itemMap !! fieldName with
      | Some val =>
          let currentY := (math_Round (currentY * 10) / 10)%Q in
          let pdf := pdf ++ [SetLineWidth (1 # 5)] in
          let pdf :=
            pdf ++ [Rect (X el) currentY (Width el) (Height el)
                         (if bool_decide (background el = "1")
                          then "FD" else "D")] in
          let pdf :=
            pdf ++ [SetFont (Font el) (FontStyle el) (FontSize el);
                    SetTextColor (ColorR el) (ColorG el) (ColorB el);
                    SetXY (X el) currentY;
                    MultiCell (Width el) (Height el) (fmt_Sprint val)
                              (Border el) (Align el)] in
          (pdf, (currentY + Height el)%Q)
      | None => (pdf, currentY)
      end
  | _ => (pdf, currentY)
  end.

Definition boxLoop (el : PDFElement.t) (fieldName : string)
    (items : list Value) (pdf : Fpdf) (currentY : Q) : Fpdf * Q :=
  fold_left (λ '(pdf, currentY) item, drawBoxItem el fieldName pdf currentY item)
            items (pdf, currentY).

(** The text of an element that does not loop: [el.Text] with the bindings
    of [el.VariableName] applied.  A single binding is looked up by its exact
    name only. *)
Definition plainText (order : nat → RangeOrder Value) (el : PDFElement.t)
    (input : gmap string Value) : string :=
  if negb (is_empty (VariableName el)) then
    if strings.HasPrefix (VariableName el) "["
       && strings.HasSuffix (VariableName el) "]"
    then
      let vars :=
        (λ v, strings.Trim (strings.Trim v strings.quote) " ")
          <$> strings.Split (strings.Trim (VariableName el) "[]") "," in
      (fold_left
         (λ '(i, text) varName,
            (S i, utils.replace_one (order i) input text varName))
         vars (0%nat, Text el)).2
    else
      match input !! VariableName el with
      | Some val =>
          strings.ReplaceAll (Text el) (utils.placeholder (VariableName el))
                             (fmt_Sprint val)
      | None => Text el
      end
  else Text el.

(** The part of the case ["table", "text"] after the loop. *)
Definition drawText (order : nat → RangeOrder Value) (pdf : Fpdf)
    (el : PDFElement.t) (input : gmap string Value) : Fpdf :=
  let text := plainText order el input in
  let pdf := setFont pdf el in
  let pdf := pdf ++ [SetTextColor (ColorR el) (ColorG el) (ColorB el)] in
  let '(rotateX, rotateY) := rotationPoint el (Y el) in
  let rotated := negb (RotateDegree el =? 0) in
  let pdf :=
    if rotated
    then pdf ++ [TransformBegin;
                 TransformRotate (RotateDegree el) rotateX rotateY]
    else pdf in
  let align := if negb (is_empty (Align el)) then Align el else "L" in
  let pdf :=
    if bool_decide (Method el = "MultiCell")
    then pdf ++ [SetXY (X el) (Y el);
                 MultiCell (Width el) (FontSize el * (1 # 2))%Q
                           text (Border el) align]
    else if bool_decide (Method el = "Cell")
    then pdf ++ [SetXY (X el) (Y el);
                 CellFormat (Width el) (Height el) text (Border el) align]
    else pdf in
  if rotated then pdf ++ [TransformEnd] else pdf.

(** The items to loop over: [Some (arrayName, fieldName, items)] when
    [el.LoopField] has its two parts and [input[arrayName]] is an array. *)
Inductive LoopTarget :=
  | NoLoop
  | BadFormat
  | Items (arrayName fieldName : string) (items : list Value).

Definition loopTarget (el : PDFElement.t) (input : gmap string Value)
  : LoopTarget :=
  if negb (is_empty (LoopField el)) then
    match strings.Split (LoopField el) "." with
    | [arrayName; fieldName] =>
        match input !! arrayName with
        | Some (VList items) => Items arrayName fieldName items
        | _ => NoLoop
        end
    | _ => BadFormat
    end
  else NoLoop.

(** [processElement]; [lastYPositions] is the package-level map. *)
Definition processElement (fs : os.FileSystem) (order : nat → RangeOrder Value)
    (lastYPositions : gmap string Q) (pdf : Fpdf) (el : PDFElement.t)
    (input : gmap string Value) : gmap string Q * Fpdf :=
  if bool_decide (Type_ el = "table") || bool_decide (Type_ el = "text") then
    match loopTarget el input with
    | BadFormat => (lastYPositions, pdf)
    | Items arrayName fieldName items =>
        let '(pdf, currentY) :=
          textLoop order el input arrayName fieldName items 0 pdf (Y el) in
        (<[arrayName := currentY]> lastYPositions, pdf)
    | NoLoop => (lastYPositions, drawText order pdf el input)
    end
  else if bool_decide (Type_ el = "box") then
    let pdf := pdf ++ [SetDrawColor (ColorR el) (ColorG el) (ColorB el)] in
    let pdf :=
      if bool_decide (background el = "1")
      then pdf ++ [SetFillColor (BGColorR el) (BGColorG el) (BGColorB el)]
      else pdf ++ [SetFillColor 255 255 255] in
    match loopTarget el input with
    | BadFormat => (lastYPositions, pdf)
    | Items arrayName fieldName items =>
        let '(pdf, currentY) := boxLoop el fieldName items pdf (Y el) in
        (<[arrayName := currentY]> lastYPositions, pdf)
    | NoLoop =>
        (lastYPositions,
         pdf ++ [SetLineWidth (1 # 5);
                 Rect (X el) (Y el) (Width el) (Height el)
                      (if bool_decide (background el = "1") then "FD" else "D");
                 SetLineWidth (1 # 5)])
    end
  else if bool_decide (Type_ el = "image") then
    if negb (is_empty (ImageSrc el)) then
      match os.Stat fs (ImageSrc el) with
      | Some _ =>
          (lastYPositions,
           pdf ++ [Image (Path (ImageSrc el)) (X el) (Y el) (Width el) (Height el)])
      | None => (lastYPositions, pdf)
      end
    else (lastYPositions, pdf)
  else (lastYPositions, pdf).

(** [GeneratePDF] up to the saving of the file: the document is made, then
    every element that passes the three checks is processed in turn. *)
Definition GeneratePDF (fs : os.FileSystem) (order : nat → RangeOrder Value)
    (lastYPositions : gmap string Q) (elements : list PDFElement.t)
    (input : gmap string Value) : gmap string Q * Fpdf :=
  fold_left
    (λ '(lastYPositions, pdf) el,
       if is_empty (Type_ el) || is_empty (Method el)
       then (lastYPositions, pdf)
       else if float64.ltb (X el) 0 || float64.ltb (Y el) 0
       then (lastYPositions, pdf)
       else if float64.leb (Width el) 0 || float64.leb (Height el) 0
       then (lastYPositions, pdf)
       else processElement fs order lastYPositions pdf el input)
    elements
    (lastYPositions,
     [AddPage; AddUTF8Font "Tahoma" "" "tahoma.ttf";
      AddUTF8Font "Tahoma" "B" "tahomabd.TTF"; SetFont "Tahoma" "" 10]).

(** [parseFloat] and [parseInt] of this file. *)
Definition parseFloat (s : string) : Q :=
  if is_empty s then 0%Q
  else match strconv_ParseFloat s with
       | Some f => f
       | None => 0%Q
       end.

Definition parseInt (s : string) : Z :=
  if is_empty s then 0
  else match strconv_Atoi s with
       | Some i => i
       | None => 0
       end.

(** The errors of [ParseCSV]. *)
Inductive ParseError :=
  | ErrOpen
  | ErrRead (e : csv.Error)
  | ErrNoDataRows
  | ErrColumns (row : Z).

(** [reader.ReadAll()]: [Read] until the end of the input; the records are
    the slices returned, and the first error ends the reading. *)
Fixpoint ReadAll (input : list (option (list string))) (reader : csv.Reader.t)
    (h : csv.Heap) (records : list csv.Slice)
  : csv.Heap * (list csv.Slice + csv.Error) :=
  match input with
  | [] => (h, inl records)
  | next :: rest =>
      match csv.read_record reader h next with
      | (_, h, inr err) => (h, inr err)
      | (reader, h, inl record) => ReadAll rest reader h (records ++ [record])
      end
  end.

(** [data[headers[j]] = val] for every field of the row. *)
Definition rowData (headers row : list string) : gmap string string :=
  fold_left (λ data hv, <[hv.1 := hv.2]> data) (zip headers row) ∅.

Definition get (data : gmap string string) (key : string) : string :=
  default "" (data !! key).

(** The element that the body of the loop of [ParseCSV] builds for a row. *)
Definition elementOfRow (headers row : list string) : PDFElement.t :=
  let data := rowData headers row in
  let elementType :=
    if is_empty (get data "type") then
      if bool_decide (get data "method" = "MultiCell")
         || bool_decide (get data "method" = "Cell") then "text"
      else if bool_decide (get data "method" = "Rect") then "box"
      else if bool_decide (get data "method" = "Image") then "image"
      else ""
    else get data "type" in
  PDFElement.mk
    elementType
    (get data "method")
    (get data "text")
    (get data "variableName")
    (parseFloat (get data "x"))
    (parseFloat (get data "y"))
    (parseFloat (get data "width"))
    (parseFloat (get data "height"))
    (get data "font")
    (get data "fontStyle")
    (parseFloat (get data "fontSize"))
    (get data "align")
    (parseInt (get data "RotateDegree"))
    (get data "border")
    (parseInt (get data "ColorR"))
    (parseInt (get data "ColorG"))
    (parseInt (get data "ColorB"))
    (get data "background")
    (parseInt (get data "BGColorR"))
    (parseInt (get data "BGColorG"))
    (parseInt (get data "BGColorB"))
    (get data "imageSrc")
    (get data "rotateType")
    (get data "loopField").

(** The loop [for i, row := range records[1:]] of [ParseCSV]. *)
Fixpoint rowsLoop (headers : list string) (rows : list (list string))
    (i : Z) (elements : list PDFElement.t)
  : list PDFElement.t + ParseError :=
  match rows with
  | [] => inl elements
  | row :: rest =>
      if bool_decide (length row ≠ length headers)
      then inr (ErrColumns (i + 2))
      else rowsLoop headers rest (i + 1)
                    (elements ++ [elementOfRow headers row])
  end.

(** [ParseCSV]: the reader keeps its default [FieldsPerRecord] and does not
    reuse records. *)
Definition ParseCSV (fs : os.FileSystem) (path : string)
  : list PDFElement.t + ParseError :=
  match os.Open fs path with
  | None => inr ErrOpen
  | Some file =>
      let reader :=
        csv.Reader.mk (csv.Reader.FieldsPerRecord csv.NewReader) true
                      (csv.Reader.ReuseRecord csv.NewReader)
                      (csv.Reader.lastRecord csv.NewReader) in
      match ReadAll (os.File.records file) reader [] [] with
      | (_, inr err) => inr (ErrRead err)
      | (h, inl records) =>
          if (length records <? 2)%nat then inr ErrNoDataRows
          else
            match csv.elems h <$> records with
            | headers :: rows => rowsLoop headers rows 0 []
            | [] => inr ErrNoDataRows
            end
      end
  end.

End with_externals.

End legacy.

(** ** An instance of the library functions, to run the definitions

    The theorems hold for every instance of [Externals].  This one is used
    where a definition is run on an example: numbers are the strings of
    decimal digits, case mapping is that of ASCII, a string prints as
    itself, and the digest of a string is the string. *)

Module reference.

Definition digit (c : ascii) : option Z :=
  let n := nat_of_ascii c in
  if (48 <=? n)%nat && (n <=? 57)%nat then Some (Z.of_nat n - 48) else None.

Fixpoint digits (acc : Z) (s : string) : option Z :=
  match s with
  | EmptyString => Some acc
  | String c s' =>
      match digit c with
      | Some d => digits (10 * acc + d) s'
      | None => None
      end
  end.

Definition Atoi (s : string) : option Z :=
  match s with
  | EmptyString => None
  | _ => digits 0 s
  end.

Definition lower (c : ascii) : ascii :=
  let n := nat_of_ascii c in
  if (65 <=? n)%nat && (n <=? 90)%nat then ascii_of_nat (n + 32) else c.

Definition upper (c : ascii) : ascii :=
  let n := nat_of_ascii c in
  if (97 <=? n)%nat && (n <=? 122)%nat then ascii_of_nat (n - 32) else c.

Fixpoint map_string (f : ascii → ascii) (s : string) : string :=
  match s with
  | EmptyString => EmptyString
  | String c s' => String (f c) (map_string f s')
  end.

Definition Sprint (v : Value) : string :=
  match v with
  | VString s => s
  | VBool true => "true"
  | VBool false => "false"
  | VNil => "<nil>"
  | VNumber _ => "<number>"
  | VList _ => "<list>"
  | VMap _ => "<map>"
  end.

#[export] Instance externals : Externals := {|
  strconv_ParseFloat := λ s, inject_Z <$> Atoi s;
  strconv_Atoi := Atoi;
  strings_ToLower := map_string lower;
  strings_ToUpper := map_string upper;
  strings_EqualFold := λ a b, String.eqb (map_string lower a) (map_string lower b);
  fmt_Sprint := Sprint;
  md5_hex := λ s, s;
  qrcode_Encode_ok := λ _, true;
  barcode_Encode_ok := λ _ _, true;
  fpdf_GetY := λ _, 0%Q;
  math_Round := λ q, q;
|}.

(** [PDFElement.String] for the examples: the text of the element. *)
Definition element_String (e : models.PDFElement.t) : string :=
  models.PDFElement.Text e.

End reference.

(** ** The vocabulary of the statements *)

Module spec.

Import models cache.

(** *** Sequences of [Set] calls *)

(** One call of [Set] with what it reads from its environment. *)
Record SetCall := mkSetCall {
  sc_fs : os.FileSystem;
  sc_order : RangeOrder CacheEntry.t;
  sc_created : Z;
  sc_accessed : Z;
  sc_path : string;
  sc_elements : list PDFElement.t;
}.

Section with_externals.
Context `{Externals} (element_String : PDFElement.t → string).

Definition run_Set (tc : TemplateCache.t) (c : SetCall) : TemplateCache.t :=
  final (Set_ element_String (sc_fs c) (sc_order c) (sc_created c)
              (sc_accessed c) (sc_path c) (sc_elements c) tc).

Definition run_Sets (tc : TemplateCache.t) (calls : list SetCall)
  : TemplateCache.t :=
  fold_left run_Set calls tc.

(** The map as [Set] has it after the line [tc.entries[filePath] = entry],
    before the test of the size. *)
Definition stored (tc : TemplateCache.t) (c : SetCall)
  : gmap string CacheEntry.t :=
  match os.Stat (sc_fs c) (sc_path c) with
  | None => TemplateCache.entries tc
  | Some fileInfo =>
      <[sc_path c :=
          CacheEntry.mk (sc_elements c)
                        (calculateHash element_String (sc_elements c))
                        (sc_created c) (sc_accessed c)
                        (os.File.ModTime fileInfo)]>
        (TemplateCache.entries tc)
  end.

(** A cache within its capacity; no entry is kept under the empty path
    (which [os.Stat] refuses, so that [Set] stores none). *)
Definition within_capacity (tc : TemplateCache.t) : Prop :=
  0 ≤ TemplateCache.maxSize tc
  ∧ TemplateCache.entries tc !! "" = None
  ∧ Z.of_nat (size (TemplateCache.entries tc)) ≤ TemplateCache.maxSize tc.

(** The entry cached for [filePath], when it is not older than the file, was
    parsed from the file as it is now. *)
Definition coherent (tc : TemplateCache.t) (fs : os.FileSystem)
    (filePath : string) : Prop :=
  ∀ entry fileInfo,
    TemplateCache.entries tc !! filePath = Some entry →
    os.Stat fs filePath = Some fileInfo →
    os.File.ModTime fileInfo ≤ CacheEntry.FileModTime entry →
    parsers.parseCSVFile fs filePath = parsers.Ok (CacheEntry.Elements entry).

End with_externals.

(** *** Rows *)

(** The element of a row as [parseCSVFile] appends it, when [Validate]
    accepts it. *)
Definition accepted (e : PDFElement.t) : option PDFElement.t :=
  match Validate e with
  | (e', None) => Some e'
  | (_, Some _) => None
  end.

(** *** The locking discipline *)

Inductive Mode :=
  | Unlocked
  | Shared
  | Exclusive.

(** Every write of the map or of an entry happens while the exclusive lock
    is held, every read of the map while a lock is held, and the lock is
    taken and released in matching pairs. *)
Fixpoint disciplined (mode : Mode) (log : list Event) : bool :=
  match log with
  | [] => match mode with Unlocked => true | _ => false end
  | ev :: log =>
      match ev, mode with
      | RLock, Unlocked => disciplined Shared log
      | RUnlock, Shared => disciplined Unlocked log
      | Lock, Unlocked => disciplined Exclusive log
      | Unlock, Exclusive => disciplined Unlocked log
      | ReadMap, (Shared | Exclusive) => disciplined mode log
      | (WriteMap | WriteEntry), Exclusive => disciplined mode log
      | _, _ => false
      end
  end.

(** The writes in a log that happen while only the shared lock is held. *)
Fixpoint shared_writes (mode : Mode) (log : list Event) : list Event :=
  match log with
  | [] => []
  | ev :: log =>
      match ev with
      | RLock => shared_writes Shared log
      | Lock => shared_writes Exclusive log
      | RUnlock | Unlock => shared_writes Unlocked log
      | ReadMap => shared_writes mode log
      | WriteMap | WriteEntry =>
          match mode with
          | Shared => ev :: shared_writes mode log
          | _ => shared_writes mode log
          end
      end
  end.

(** *** Drawings *)


(** [y] after [n] turns of a loop that adds [step] at each turn. *)
Fixpoint advance (n : nat) (y step : Q) : Q :=
  match n with
  | O => y
  | S n => advance n (y + step)%Q step
  end.


End spec.

(** ** Inputs of the examples *)

Module examples.

Import reference.

(** A template of two columns and one row, and the same template with a row
    of one field only. *)
Definition template : os.File.t :=
  os.File.mk [Some ["type"; "method"]; Some ["text"; "Cell"]] 5.

Definition short_row : os.File.t :=
  os.File.mk [Some ["type"; "method"]; Some ["text"]] 5.

Definition files : os.FileSystem :=
  {[ "t.csv" := template; "bad.csv" := short_row ]}.

Definition order_entries : RangeOrder cache.CacheEntry.t := map_to_list.

Definition order_data : nat → RangeOrder Value := λ _, map_to_list.

(** Two items with a description and a price. *)
Definition items : list Value :=
  [VMap {[ "description" := VString "A"; "price" := VString "1" ]};
   VMap {[ "description" := VString "B"; "price" := VString "2" ]}].

Definition input : gmap string Value := {[ "items" := VList items ]}.

(** A loop element of the generator over the descriptions of the items. *)
Definition loop_element : models.PDFElement.t :=
  models.PDFElement.mk "text" "Cell" "{{items.description}}" ""
    (models.Position.mk 10 50) (models.Size.mk 100 10)
    (models.Style.mk (models.Font.mk "Tahoma" "" 10) "" "L" 0 ""
       (models.Color.mk 0 0 0 false) (models.Color.mk 0 0 0 false) "")
    "items.description" [] "" "Code128" "".

(** A barcode element whose format is not set. *)
Definition barcode_element : models.PDFElement.t :=
  models.PDFElement.mk "barcode" "Barcode" "" "code"
    (models.Position.mk 10 50) (models.Size.mk 100 10)
    (models.Style.mk (models.Font.mk "Tahoma" "" 10) "" "L" 0 ""
       (models.Color.mk 0 0 0 false) (models.Color.mk 0 0 0 false) "")
    "" [] "" "" "".

(** Two text elements of the first renderer that loop over the same array,
    side by side, both declared at y = 50. *)
Definition descriptions : legacy.PDFElement.t :=
  legacy.PDFElement.mk "text" "Cell" "" "" 10 50 100 10 "Tahoma" "" 10 "L" 0
    "" 0 0 0 "" 0 0 0 "" "" "items.description".


(** A cache of capacity 1 and two calls of [Set]. *)
Definition small_cache : cache.TemplateCache.t := cache.NewTemplateCache 1 1000.

Definition two_sets : list spec.SetCall :=
  [spec.mkSetCall files order_entries 10 10 "t.csv" [];
   spec.mkSetCall files order_entries 20 20 "bad.csv" []].

(** A cache that holds an entry for the template. *)
Definition warm_cache : cache.TemplateCache.t :=
  cache.TemplateCache.mk
    {[ "t.csv" := cache.CacheEntry.mk [] "" 10 10 5 ]} 100 1000.

(** A cache whose entry for the template was created at 10, tried at a
    time when it is older than the TTL of 1000. *)
Definition late : Z := 5000.

(** A file system in which the template is newer than the entry of
    [warm_cache]. *)
Definition newer_files : os.FileSystem :=
  {[ "t.csv" := os.File.mk [Some ["type"; "method"]; Some ["text"; "Cell"]] 9 ]}.

(** The two font files of [setupFonts]. *)
Definition font_files : os.FileSystem :=
  {[ "fonts/tahoma.ttf" := os.File.mk [] 1;
     "fonts/tahomabd.TTF" := os.File.mk [] 1 ]}.

(** A template with the columns of a text element and one row that gives
    it a place and a size. *)
Definition placed_headers : list string :=
  ["type"; "method"; "text"; "x"; "y"; "width"; "height"].

Definition placed_row : list string :=
  ["text"; "Cell"; "Hello"; "10"; "50"; "100"; "10"].

Definition placed_template : os.File.t :=
  os.File.mk [Some placed_headers; Some placed_row] 5.

Definition placed_files : os.FileSystem := {[ "placed.csv" := placed_template ]}.

(** A text element that does not loop. *)
Definition plain_text : models.PDFElement.t :=
  models.PDFElement.mk "text" "Cell" "Hello" ""
    (models.Position.mk 10 50) (models.Size.mk 100 10)
    (models.Style.mk (models.Font.mk "Tahoma" "" 10) "" "L" 0 ""
       (models.Color.mk 0 0 0 false) (models.Color.mk 0 0 0 false) "")
    "" [] "" "Code128" "".

(** A QR element whose content is to come from the variable [code]. *)
Definition qr_element : models.PDFElement.t :=
  models.PDFElement.mk "qr" "QR" "" "code"
    (models.Position.mk 10 50) (models.Size.mk 30 30)
    (models.Style.mk (models.Font.mk "Tahoma" "" 10) "" "L" 0 ""
       (models.Color.mk 0 0 0 false) (models.Color.mk 0 0 0 false) "")
    "" [] "" "Code128" "".

End examples.

(** * Part II: lemmas and theorems *)

(** ** Visiting orders *)

Lemma range_ok_map_to_list {V} : range_ok (map_to_list (K := string) (A := V)).
Proof. intros m. reflexivity. Qed.

Lemma range_ok_lookup {V} (order : RangeOrder V) m k v :
  range_ok order → (k, v) ∈ order m ↔ m !! k = Some v.
Proof. intros Hok. rewrite (Hok m). apply elem_of_map_to_list. Qed.

(** ** Strings *)

Section strings_facts.

Lemma prefix_Contains s substr :
  String.prefix substr s = true → strings.Contains s substr = true.
Proof. intros Hp. destruct s; simpl in *; rewrite Hp; reflexivity. Qed.

Lemma Contains_tail c s substr :
  strings.Contains (String c s) substr = false →
  strings.Contains s substr = false.
Proof.
  change (strings.Contains (String c s) substr)
    with (String.prefix substr (String c s) || strings.Contains s substr).
  intros Hc. apply orb_false_iff in Hc. apply Hc.
Qed.

Lemma replace_from_absent old new s :
  strings.Contains s old = false → strings.replace_from old new 0 s = s.
Proof.
  induction s as [|c s IH]; intros Hc; [reflexivity|].
  cbn [strings.replace_from].
  destruct (String.prefix old (String c s)) eqn:Hp.
  - apply prefix_Contains in Hp. congruence.
  - f_equal. apply IH. eapply Contains_tail, Hc.
Qed.

(** A string in which [old] does not occur is returned as it is. *)
Lemma ReplaceAll_absent s old new :
  strings.Contains s old = false → strings.ReplaceAll s old new = s.
Proof.
  intros Hc. destruct old; [reflexivity|].
  apply replace_from_absent, Hc.
Qed.

Lemma concat_cons_split (x : string) (l : list string) :
  l ≠ [] → String.concat "." (x :: l) = x +:+ "." +:+ String.concat "." l.
Proof. destruct l; [done | reflexivity]. Qed.

Lemma split_from_nonempty sep k cur s : strings.split_from sep k cur s ≠ [].
Proof.
  revert k cur.
  induction s as [|c s IH]; intros k cur; cbn [strings.split_from];
    [discriminate|].
  destruct k; [|apply IH].
  destruct (String.prefix sep (String c s)); [discriminate | apply IH].
Qed.

Lemma append_nil (b : string) : EmptyString +:+ b = b.
Proof. reflexivity. Qed.

Lemma append_cons x (a b : string) : String x a +:+ b = String x (a +:+ b).
Proof. reflexivity. Qed.

Lemma append_nil_r (a : string) : a +:+ EmptyString = a.
Proof.
  induction a as [|x a IH]; [reflexivity|].
  rewrite append_cons. by rewrite IH.
Qed.

Lemma length_append (a b : string) :
  String.length (a +:+ b) = (String.length a + String.length b)%nat.
Proof.
  induction a as [|x a IH]; [reflexivity|].
  rewrite append_cons. simpl. by rewrite IH.
Qed.

Lemma app_String_assoc (a : string) c (b : string) :
  (a +:+ String c EmptyString) +:+ b = a +:+ String c b.
Proof.
  induction a as [|x a IH]; [reflexivity|].
  rewrite !append_cons. by rewrite IH.
Qed.

Lemma prefix_dot c s :
  String.prefix "." (String c s) = true → c = "."%char.
Proof.
  change (String.prefix "." (String c s))
    with (if ascii_dec "." c then String.prefix EmptyString s else false).
  destruct (ascii_dec "." c); [congruence | discriminate].
Qed.

(** Joining the parts of a split at dots gives the string back. *)
Lemma split_dot_concat cur s :
  String.concat "." (strings.split_from "." 0 cur s) = cur +:+ s.
Proof.
  revert cur. induction s as [|c s IH]; intros cur.
  - cbn [strings.split_from String.concat]. by rewrite append_nil_r.
  - cbn [strings.split_from].
    destruct (String.prefix "." (String c s)) eqn:Hp.
    + change (String.length "." - 1)%nat with 0%nat.
      rewrite concat_cons_split by apply split_from_nonempty.
      rewrite (IH EmptyString). apply prefix_dot in Hp. by subst c.
    + rewrite IH. apply app_String_assoc.
Qed.

(** A string that splits at its dots into two parts is not its first part. *)
Lemma Split_two_first s a b : strings.Split s "." = [a; b] → s ≠ a.
Proof.
  intros Hs Heq. pose proof (split_dot_concat EmptyString s) as Hc.
  unfold strings.Split in Hs. rewrite Hs in Hc.
  cbn [String.concat] in Hc. rewrite append_nil in Hc. subst s.
  apply (f_equal String.length) in Hc.
  rewrite !length_append in Hc. simpl in Hc. lia.
Qed.

Lemma Split_two_nonempty s a b : strings.Split s "." = [a; b] → s ≠ "".
Proof. intros Hs ->. discriminate Hs. Qed.

End strings_facts.

(** ** Comparisons *)

Section float64_facts.


Lemma ltb_true a b : float64.ltb a b = true ↔ (a < b)%Q.
Proof.
  unfold float64.ltb. rewrite negb_true_iff, <- not_true_iff_false, Qle_bool_iff.
  split; [apply Qnot_le_lt | apply Qlt_not_le].
Qed.


Lemma leb_true a b : float64.leb a b = true ↔ (a <= b)%Q.
Proof. apply Qle_bool_iff. Qed.

End float64_facts.

(** ** [Validate] *)

Section Validate_facts.

Import models models.PDFElement.

Lemma is_empty_true s : is_empty s = true ↔ s = "".
Proof. unfold is_empty. apply bool_decide_eq_true. Qed.

Lemma is_empty_false s : is_empty s = false ↔ s ≠ "".
Proof. unfold is_empty. apply bool_decide_eq_false. Qed.

(** [Validate] changes nothing but [BarcodeFormat]. *)
Lemma Validate_result e :
  (Validate e).1 = e ∨
  ((Validate e).1 = set_BarcodeFormat "Code128" e
   ∧ (Validate e).2 = None
   ∧ Type_ e = ElementTypeBarcode ∧ BarcodeFormat e = "").
Proof.
  unfold Validate.
  repeat (case_match; simpl; auto).
  right. repeat split; auto.
  - by eapply bool_decide_eq_true_1.
  - by apply is_empty_true.
Qed.


(** Validating an accepted element again accepts it and changes nothing. *)
Lemma Validate_idempotent e e' :
  Validate e = (e', None) → Validate e' = (e', None).
Proof.
  intros Hv. destruct (Validate_result e) as [He|(He & _ & Ht & Hf)];
    rewrite Hv in He; simpl in He; subst e'; [done|].
  revert Hv. unfold Validate. destruct e; simpl in *. subst.
  repeat (case_match; simpl; try done).
Qed.

(** C10. [Validate] is not read-only: on a barcode element whose
    [BarcodeFormat] is empty a successful call sets [BarcodeFormat] to
    "Code128" and leaves every other field as it was; on every other element
    (not a barcode, or a barcode whose format is set) it leaves the element
    as it was, whether it succeeds or not. *)
Theorem Validate_writes_only_empty_barcode_format (e : PDFElement.t) :
  (Type_ e = ElementTypeBarcode → BarcodeFormat e = "" →
   (Validate e).2 = None →
   (Validate e).1 = set_BarcodeFormat "Code128" e
   ∧ BarcodeFormat (Validate e).1 = "Code128"
   ∧ (Validate e).1 ≠ e)
  ∧ (Type_ e ≠ ElementTypeBarcode ∨ BarcodeFormat e ≠ "" →
     (Validate e).1 = e).
Proof.
  split.
  - intros Ht Hf Hok.
    assert (Hset : (Validate e).1 = set_BarcodeFormat "Code128" e).
    { revert Hok. unfold Validate. rewrite Ht, Hf. simpl.
      repeat (case_match; simpl; try done). }
    rewrite Hset. split_and!; [done..|].
    intros Heq. apply (f_equal BarcodeFormat) in Heq. simpl in Heq. congruence.
  - intros Hother.
    destruct (Validate_result e) as [He|(_ & _ & Ht & Hf)]; [done|].
    destruct Hother; congruence.
Qed.

End Validate_facts.

(** ** The reader and the parser *)

Section parser_facts.

Context `{Externals}.

Import models models.PDFElement parsers.

(** With [ReuseRecord] set, a record of as many fields as the slice returned
    before is written over that slice: the earlier slice now holds the new
    record.  The slice of the headers is therefore overwritten by every row
    that [parseCSVFile] reads. *)
Lemma fill_overwrites h d fields :
  length fields = csv.cap h d → (csv.arr d < length h)%nat →
  let '(h', record) := csv.fill h (Some d) fields in
  record = csv.mkSlice (csv.arr d) (length fields)
  ∧ csv.elems h' (csv.mkSlice (csv.arr d) (csv.cap h d)) = fields.
Proof.
  intros Hlen Harr. unfold csv.fill.
  rewrite (proj2 (Nat.ltb_ge _ _)) by lia.
  split; [done|].
  unfold csv.elems, csv.array. simpl.
  rewrite list_lookup_insert_eq by done. simpl.
  rewrite drop_ge by (unfold csv.cap, csv.array in Hlen; lia).
  rewrite app_nil_r, <- Hlen. apply firstn_all.
Qed.

(** A record of the expected number of fields is returned without error. *)
Lemma read_record_ok r h fields :
  csv.Reader.FieldsPerRecord r = Z.of_nat (length fields) →
  ∃ r' h' record,
    csv.read_record r h (Some fields) = (r', h', inl record)
    ∧ csv.Reader.FieldsPerRecord r' = csv.Reader.FieldsPerRecord r.
Proof.
  intros Hn. unfold csv.read_record.
  destruct (csv.fill _ _ _) as [h' record].
  destruct (0 <? csv.Reader.FieldsPerRecord r) eqn:Hpos.
  - rewrite bool_decide_eq_false_2 by (intros Hne; apply Hne; by rewrite Hn).
    by eexists _, _, _.
  - assert (csv.Reader.FieldsPerRecord r = 0) as H0
      by (apply Z.ltb_ge in Hpos; lia).
    rewrite H0. simpl. eexists _, _, _. split; [done|]. simpl. lia.
Qed.

(** A record of another number of fields is an error of the reader, once
    the number of fields is fixed. *)
Lemma read_record_field_count r h fields :
  0 < csv.Reader.FieldsPerRecord r →
  Z.of_nat (length fields) ≠ csv.Reader.FieldsPerRecord r →
  csv.read_record r h (Some fields) = (r, h, inr csv.ErrFieldCount).
Proof.
  intros Hpos Hne. unfold csv.read_record.
  destruct (csv.fill _ _ _) as [h' record].
  rewrite (proj2 (Z.ltb_lt _ _)) by done.
  by rewrite bool_decide_eq_true_2.
Qed.



(** The first row of another number of fields ends the loop with the error
    of the reader. *)
Lemma parseRows_field_count rows bad rest reader h headers elements rowIndex :
  0 < csv.Reader.FieldsPerRecord reader →
  Forall (λ fields,
            Z.of_nat (length fields) = csv.Reader.FieldsPerRecord reader) rows →
  Z.of_nat (length bad) ≠ csv.Reader.FieldsPerRecord reader →
  parseRows ((Some <$> rows) ++ Some bad :: rest) reader h headers elements
            rowIndex
  = Err (ErrRow (rowIndex + Z.of_nat (length rows) + 1) csv.ErrFieldCount).
Proof.
  revert reader h elements rowIndex.
  induction rows as [|fields rows IH];
    intros reader h elements rowIndex Hpos Hall Hbad.
  - cbn [fmap list_fmap app parseRows].
    rewrite read_record_field_count by done. simpl. do 2 f_equal. lia.
  - apply Forall_cons in Hall as [Hf Hall].
    cbn [fmap list_fmap app parseRows].
    destruct (read_record_ok reader h fields) as (r' & h' & record & -> & Hfpr);
      [done|].
    rewrite <- Hfpr in Hpos, Hall, Hbad.
    replace (rowIndex + Z.of_nat (length (fields :: rows)) + 1)
      with (rowIndex + 1 + Z.of_nat (length rows) + 1)
      by (cbn [length]; lia).
    case_bool_decide; [by apply IH|].
    destruct (Validate _) as [element [err|]]; by apply IH.
Qed.

(** What [parseCSVFile] does after the headers are read. *)
Lemma parseCSVFile_headers fs filePath file headers rest :
  os.Open fs filePath = Some file →
  os.File.records file = Some headers :: rest →
  ∃ reader h slice,
    csv.Reader.FieldsPerRecord reader = Z.of_nat (length headers)
    ∧ parseCSVFile fs filePath = parseRows rest reader h slice [] 1.
Proof.
  intros Hopen Hrec. unfold parseCSVFile. rewrite Hopen, Hrec.
  unfold csv.Read, csv.read_record, csv.fill, csv.NewReader. simpl.
  eexists _, _, _. split; [|reflexivity]. reflexivity.
Qed.

End parser_facts.

Section parser_theorems.

Context `{Externals}.

Import models models.PDFElement parsers.

(** With [ReuseRecord] set and the number of fields fixed at [n], a row is
    written over the array of the slice returned before. *)
Lemma read_record_reuse reader a0 n fields :
  csv.Reader.ReuseRecord reader = true →
  csv.Reader.lastRecord reader = Some (csv.mkSlice 0 n) →
  csv.Reader.FieldsPerRecord reader = Z.of_nat n →
  length a0 = n → length fields = n →
  ∃ reader',
    csv.read_record reader [a0] (Some fields)
    = (reader', [fields], inl (csv.mkSlice 0 n))
    ∧ csv.Reader.ReuseRecord reader' = true
    ∧ csv.Reader.lastRecord reader' = Some (csv.mkSlice 0 n)
    ∧ csv.Reader.FieldsPerRecord reader' = Z.of_nat n.
Proof.
  intros Hreuse Hlast Hfpr Ha0 Hf.
  unfold csv.read_record. rewrite Hreuse, Hlast.
  unfold csv.fill, csv.cap, csv.array. simpl.
  rewrite (proj2 (Nat.ltb_ge _ _)) by lia.
  rewrite drop_ge by lia. rewrite app_nil_r, Hfpr, Hf.
  destruct (0 <? Z.of_nat n) eqn:Hpos.
  - rewrite bool_decide_eq_false_2 by (intros Hne; by apply Hne).
    by eexists.
  - assert (n = 0%nat) as -> by (apply Z.ltb_ge in Hpos; lia).
    by eexists.
Qed.

(** The rows as [parseCSVFile] sees them.  Every row that is read has as
    many fields as the headers, so it is written over the slice of the
    headers: [createElementFromRow] receives the row in the place of the
    headers too. *)
Lemma parseRows_reuse rows n reader a0 elements rowIndex :
  csv.Reader.ReuseRecord reader = true →
  csv.Reader.lastRecord reader = Some (csv.mkSlice 0 n) →
  csv.Reader.FieldsPerRecord reader = Z.of_nat n →
  length a0 = n →
  Forall (λ fields, length fields = n) rows →
  parseRows (Some <$> rows) reader [a0] (csv.mkSlice 0 n) elements rowIndex
  = Ok (elements
        ++ omap (λ fields, spec.accepted (createElementFromRow fields fields))
                rows).
Proof.
  revert reader a0 elements rowIndex.
  induction rows as [|fields rows IH];
    intros reader a0 elements rowIndex Hreuse Hlast Hfpr Ha0 Hall.
  - simpl. by rewrite app_nil_r.
  - apply Forall_cons in Hall as [Hf Hall].
    cbn [fmap list_fmap parseRows omap list_omap].
    destruct (read_record_reuse reader a0 n fields)
      as (reader' & -> & Hreuse' & Hlast' & Hfpr'); [done..|].
    rewrite bool_decide_eq_false_2 by (intros Hne; by apply Hne).
    unfold csv.elems, csv.array. simpl. rewrite firstn_all2 by lia.
    unfold spec.accepted.
    destruct (Validate (createElementFromRow fields fields))
      as [element [err|]].
    + by apply IH.
    + rewrite (IH reader') by done. by rewrite <- app_assoc.
Qed.

(** The whole parse of a file whose rows have the number of fields of the
    headers. *)
Lemma parseCSVFile_rows fs filePath file headers rows :
  os.Open fs filePath = Some file →
  os.File.records file = Some headers :: (Some <$> rows) →
  Forall (λ fields, length fields = length headers) rows →
  parseCSVFile fs filePath
  = Ok (omap (λ fields, spec.accepted (createElementFromRow fields fields))
             rows).
Proof.
  intros Hopen Hrec Hall. unfold parseCSVFile. rewrite Hopen, Hrec.
  unfold csv.Read, csv.read_record, csv.fill, csv.NewReader. simpl.
  by rewrite (parseRows_reuse rows (length headers)).
Qed.


(** C3 (the code departs from the claim).  A data row whose number of fields
    differs from that of the headers is not skipped: [FieldsPerRecord] is
    left at 0 by [parseCSVFile], so the reader fixes the number of fields at
    that of the headers and answers such a row with [ErrFieldCount]; the
    test [len(record) != len(headers)] is never reached with a row of another
    length, and [parseCSVFile] returns the error, with no elements, at the
    first such row. *)
Theorem mismatched_row_fails_the_parse fs filePath file headers rows bad rest :
  os.Open fs filePath = Some file →
  os.File.records file = Some headers :: (Some <$> rows) ++ Some bad :: rest →
  headers ≠ [] →
  Forall (λ fields, length fields = length headers) rows →
  length bad ≠ length headers →
  parseCSVFile fs filePath
  = Err (ErrRow (Z.of_nat (length rows) + 2) csv.ErrFieldCount).
Proof.
  intros Hopen Hrec Hne Hall Hbad.
  destruct (parseCSVFile_headers _ _ _ _ _ Hopen Hrec)
    as (reader & h & slice & Hfpr & ->).
  rewrite parseRows_field_count.
  - do 2 f_equal. lia.
  - rewrite Hfpr. destruct headers; [done|]. simpl. lia.
  - eapply Forall_impl; [done|]. intros fields Hlen. simpl in Hlen.
    by rewrite Hfpr, Hlen.
  - rewrite Hfpr. lia.
Qed.

End parser_theorems.

(** ** The template cache *)

Section cache_facts.

Context `{Externals} (element_String : models.PDFElement.t → string).

Import models cache cache.CacheEntry cache.TemplateCache.

(** [Get], run: its result, the cache it leaves and what it does with the
    lock on each of its paths. *)
Lemma Get_run fs now_since now_touch filePath tc :
  Get fs now_since now_touch filePath tc =
  match entries tc !! filePath with
  | None => (None, tc, [RLock; ReadMap; RUnlock])
  | Some entry =>
      let dropped :=
        (None, set_entries (delete filePath (entries tc)) tc,
         [RLock; ReadMap; WriteMap; RUnlock]) in
      match os.Stat fs filePath with
      | None => dropped
      | Some fileInfo =>
          if FileModTime entry <? os.File.ModTime fileInfo then dropped
          else if ttl tc <? now_since - CreatedAt entry then dropped
          else (Some (Elements entry),
                set_entries
                  (alter (set_AccessedAt now_touch) filePath (entries tc)) tc,
                [RLock; ReadMap; WriteEntry; RUnlock])
      end
  end.
Proof.
  unfold Get, defer, emit, read_entries, delete_key, touch, get_ttl.
  unfold mbind, M_bind, mret, M_ret. simpl.
  destruct (entries tc !! filePath) as [entry|]; [|reflexivity].
  destruct (os.Stat fs filePath) as [fileInfo|]; [|reflexivity].
  destruct (FileModTime entry <? os.File.ModTime fileInfo); [reflexivity|].
  simpl. destruct (ttl tc <? now_since - CreatedAt entry); reflexivity.
Qed.

(** [Set], run. *)
Lemma Set_run fs order now_created now_accessed filePath elements tc :
  Set_ element_String fs order now_created now_accessed filePath elements tc =
  match os.Stat fs filePath with
  | None => (tt, tc, [Lock; Unlock])
  | Some fileInfo =>
      let m :=
        <[filePath :=
            CacheEntry.mk elements (calculateHash element_String elements)
                          now_created now_accessed (os.File.ModTime fileInfo)]>
          (entries tc) in
      if maxSize tc <? Z.of_nat (size m) then
        let oldestKey := (oldest (order m)).1 in
        if negb (is_empty oldestKey)
        then (tt, set_entries (delete oldestKey m) tc,
              [Lock; WriteMap; ReadMap; ReadMap; WriteMap; Unlock])
        else (tt, set_entries m tc, [Lock; WriteMap; ReadMap; ReadMap; Unlock])
      else (tt, set_entries m tc, [Lock; WriteMap; ReadMap; Unlock])
  end.
Proof.
  unfold Set_, evictOldest, defer, emit, read_entries, delete_key, store,
    get_maxSize.
  unfold mbind, M_bind, mret, M_ret. simpl.
  destruct (os.Stat fs filePath) as [fileInfo|]; [|reflexivity].
  simpl. destruct (maxSize tc <? _); [|reflexivity].
  simpl. destruct (negb _); reflexivity.
Qed.

(** After a miss the cache holds no entry for the path. *)
Lemma Get_miss fs now_since now_touch filePath tc :
  result (Get fs now_since now_touch filePath tc) = None →
  entries (final (Get fs now_since now_touch filePath tc)) !! filePath = None.
Proof.
  rewrite Get_run. unfold result, final.
  destruct (entries tc !! filePath) as [entry|] eqn:He; [|done].
  destruct (os.Stat fs filePath) as [fileInfo|];
    [|intros _; apply lookup_delete_eq].
  simpl.
  destruct (_ <? _); [intros _; apply lookup_delete_eq|].
  destruct (_ <? _); [intros _; apply lookup_delete_eq|discriminate].
Qed.

(** A hit returns the elements of an entry that passes the three checks, and
    leaves that entry in the cache with a new access time. *)
Lemma Get_hit fs now_since now_touch filePath tc els :
  result (Get fs now_since now_touch filePath tc) = Some els ↔
  ∃ entry fileInfo,
    entries tc !! filePath = Some entry
    ∧ os.Stat fs filePath = Some fileInfo
    ∧ ¬ (FileModTime entry < os.File.ModTime fileInfo)
    ∧ ¬ (ttl tc < now_since - CreatedAt entry)
    ∧ els = Elements entry.
Proof.
  rewrite Get_run. unfold result. split.
  - destruct (entries tc !! filePath) as [entry|]; [|discriminate].
    destruct (os.Stat fs filePath) as [fileInfo|]; [|discriminate].
    simpl.
    destruct (FileModTime entry <? _) eqn:Hmod; [discriminate|].
    destruct (ttl tc <? _) eqn:Httl; [discriminate|].
    intros [= <-]. exists entry, fileInfo.
    apply Z.ltb_ge in Hmod, Httl. split_and!; [done..|lia|lia|done].
  - intros (entry & fileInfo & -> & -> & Hmod & Httl & ->). simpl.
    rewrite (proj2 (Z.ltb_ge _ _)) by lia.
    rewrite (proj2 (Z.ltb_ge _ _)) by lia. done.
Qed.

Lemma Get_hit_final fs now_since now_touch filePath tc els :
  result (Get fs now_since now_touch filePath tc) = Some els →
  entries (final (Get fs now_since now_touch filePath tc))
  = alter (set_AccessedAt now_touch) filePath (entries tc).
Proof.
  rewrite Get_run. unfold result, final.
  destruct (entries tc !! filePath) as [entry|]; [|discriminate].
  destruct (os.Stat fs filePath) as [fileInfo|]; [|discriminate].
  simpl. destruct (_ <? _); [discriminate|].
  destruct (_ <? _); [discriminate|done].
Qed.

(** The entry that [Set] leaves for the path, if any, holds the elements
    just stored, when there was none before. *)
Lemma Set_lookup fs order now_created now_accessed filePath elements tc entry :
  entries tc !! filePath = None →
  entries (final (Set_ element_String fs order now_created now_accessed
                       filePath elements tc)) !! filePath = Some entry →
  Elements entry = elements.
Proof.
  intros Hnone. rewrite Set_run. unfold final.
  destruct (os.Stat fs filePath) as [fileInfo|]; [|simpl; congruence].
  cbv zeta.
  assert (Hdel : ∀ (k : string) (m : gmap string CacheEntry.t) e0,
            delete k (<[filePath := e0]> m) !! filePath = Some entry →
            entry = e0).
  { intros k m e0. destruct (decide (k = filePath)) as [->|Hne].
    - by rewrite lookup_delete_eq.
    - rewrite lookup_delete_ne, lookup_insert_eq by done. congruence. }
  destruct (_ <? _); [destruct (negb _)|]; simpl.
  - intros Hl. apply Hdel in Hl. by subst.
  - rewrite lookup_insert_eq. by intros [= <-].
  - rewrite lookup_insert_eq. by intros [= <-].
Qed.

(** [ParseCSV], run. *)
Lemma ParseCSV_run fs order t1 t2 t3 t4 filePath tc :
  parsers.ParseCSV element_String fs order t1 t2 t3 t4 filePath tc =
  let got := Get fs t1 t2 filePath tc in
  match result got with
  | Some elements => (parsers.Ok elements, final got, events got)
  | None =>
      match parsers.parseCSVFile fs filePath with
      | parsers.Err err => (parsers.Err err, final got, events got)
      | parsers.Ok elements =>
          let set := Set_ element_String fs order t3 t4 filePath elements
                          (final got) in
          (parsers.Ok elements, final set, events got ++ events set)
      end
  end.
Proof.
  unfold parsers.ParseCSV, mbind, M_bind, mret, M_ret, result, final, events.
  destruct (Get fs t1 t2 filePath tc) as [[[els|] tc1] log1]; simpl.
  - by rewrite app_nil_r.
  - destruct (parsers.parseCSVFile fs filePath) as [els|err]; simpl.
    + destruct (Set_ _ _ _ _ _ _ _ _) as [[[] tc2] log2]. simpl.
      by rewrite app_nil_r.
    + by rewrite app_nil_r.
Qed.

(** From a coherent cache a fetch returns what the parse of the file as it
    is now returns, and it leaves the cache coherent. *)
Lemma ParseCSV_coherent fs order t1 t2 t3 t4 filePath tc :
  spec.coherent tc fs filePath →
  result (parsers.ParseCSV element_String fs order t1 t2 t3 t4 filePath tc)
  = parsers.parseCSVFile fs filePath
  ∧ spec.coherent
      (final (parsers.ParseCSV element_String fs order t1 t2 t3 t4 filePath tc))
      fs filePath.
Proof.
  intros Hco. rewrite ParseCSV_run. cbv zeta.
  destruct (result (Get fs t1 t2 filePath tc)) as [els|] eqn:Hget.
  - pose proof (Get_hit_final _ _ _ _ _ _ Hget) as Hfin.
    apply Get_hit in Hget as (entry & fileInfo & He & Hst & Hmod & _ & ->).
    assert (Hparse : parsers.parseCSVFile fs filePath
                     = parsers.Ok (Elements entry))
      by (eapply Hco; [done..|lia]).
    split; [done|]. unfold final at 1. simpl.
    intros entry' fileInfo' He' _ _. rewrite Hfin in He'.
    rewrite lookup_alter, decide_True, He in He' by done.
    simpl in He'. injection He' as <-. done.
  - apply Get_miss in Hget.
    destruct (parsers.parseCSVFile fs filePath) as [els|err] eqn:Hparse.
    + split; [done|]. unfold final at 1. simpl.
      intros entry' fileInfo' He' _ _.
      apply Set_lookup in He'; [|done]. by rewrite He'.
    + split; [done|]. unfold final at 1. simpl.
      intros entry' fileInfo' He'. congruence.
Qed.

(** C1. [Get] reports a hit, with the elements of the entry, exactly when an
    entry exists for the path, the file can be examined, its modification
    time is not after the one recorded, and the age of the entry does not
    exceed the TTL; in every other case it reports a miss.  Hence two
    fetches of a template whose source is not modified return the same
    elements, with the same content hash; and once the modification time of
    the source is after the recorded one, the next fetch returns what the
    parse of the source as it is now returns. *)
Theorem cache_fetch_correct :
  (∀ fs now_since now_touch filePath tc,
     (∀ els,
        result (Get fs now_since now_touch filePath tc) = Some els ↔
        ∃ entry fileInfo,
          entries tc !! filePath = Some entry
          ∧ os.Stat fs filePath = Some fileInfo
          ∧ ¬ (FileModTime entry < os.File.ModTime fileInfo)
          ∧ ¬ (ttl tc < now_since - CreatedAt entry)
          ∧ els = Elements entry)
     ∧ (entries tc !! filePath = None ∨ os.Stat fs filePath = None →
        result (Get fs now_since now_touch filePath tc) = None))
  ∧ (∀ fs order1 order2 s1 s2 s3 s4 t1 t2 t3 t4 filePath tc,
       spec.coherent tc fs filePath →
       let first :=
         parsers.ParseCSV element_String fs order1 s1 s2 s3 s4 filePath tc in
       let second :=
         parsers.ParseCSV element_String fs order2 t1 t2 t3 t4 filePath
                          (final first) in
       result first = result second
       ∧ ∀ els1 els2,
           result first = parsers.Ok els1 → result second = parsers.Ok els2 →
           calculateHash element_String els1
           = calculateHash element_String els2)
  ∧ (∀ fs order t1 t2 t3 t4 filePath tc entry fileInfo,
       entries tc !! filePath = Some entry →
       os.Stat fs filePath = Some fileInfo →
       FileModTime entry < os.File.ModTime fileInfo →
       result (Get fs t1 t2 filePath tc) = None
       ∧ result (parsers.ParseCSV element_String fs order t1 t2 t3 t4
                                  filePath tc)
         = parsers.parseCSVFile fs filePath).
Proof.
  split_and!.
  - intros fs now_since now_touch filePath tc. split.
    + intros els. apply Get_hit.
    + intros Hnone.
      destruct (result (Get fs now_since now_touch filePath tc)) as [els|] eqn:Hg;
        [|done].
      apply Get_hit in Hg as (entry & fileInfo & He & Hst & _).
      destruct Hnone; congruence.
  - intros fs order1 order2 s1 s2 s3 s4 t1 t2 t3 t4 filePath tc Hco first second.
    destruct (ParseCSV_coherent fs order1 s1 s2 s3 s4 filePath tc Hco)
      as [Hr1 Hco1].
    destruct (ParseCSV_coherent fs order2 t1 t2 t3 t4 filePath _ Hco1)
      as [Hr2 _].
    fold first in Hr1, Hr2. fold second in Hr2.
    split; [congruence|].
    intros els1 els2 H1 H2. rewrite Hr1 in H1. rewrite Hr2 in H2. congruence.
  - intros fs order t1 t2 t3 t4 filePath tc entry fileInfo He Hst Hmod.
    assert (Hmiss : result (Get fs t1 t2 filePath tc) = None).
    { destruct (result (Get fs t1 t2 filePath tc)) as [els|] eqn:Hg; [|done].
      apply Get_hit in Hg as (entry' & fileInfo' & He' & Hst' & Hmod' & _).
      rewrite He in He'. rewrite Hst in Hst'.
      injection He' as <-. injection Hst' as <-. lia. }
    split; [done|].
    rewrite ParseCSV_run. cbv zeta. rewrite Hmiss.
    by destruct (parsers.parseCSVFile fs filePath).
Qed.

End cache_facts.

Section eviction_facts.

Context `{Externals} (element_String : models.PDFElement.t → string).

Import models cache cache.CacheEntry cache.TemplateCache.

(** The loop of [evictOldest], started with a key already chosen: the key it
    ends with is a visited one or the first, its time is the least seen. *)
Lemma oldest_loop (visited : list (string * CacheEntry.t)) k0 t0 :
  k0 ≠ "" →
  Forall (λ kv, kv.1 ≠ "") visited →
  let r :=
    fold_left
      (λ '(oldestKey, oldestTime) '(key, entry),
         if is_empty oldestKey || (AccessedAt entry <? oldestTime)
         then (key, AccessedAt entry)
         else (oldestKey, oldestTime))
      visited (k0, t0) in
  r.1 ≠ ""
  ∧ r.2 ≤ t0
  ∧ (∀ kv, kv ∈ visited → r.2 ≤ AccessedAt kv.2)
  ∧ (r = (k0, t0) ∨ ∃ e, (r.1, e) ∈ visited ∧ r.2 = AccessedAt e).
Proof.
  revert k0 t0. induction visited as [|[key entry] visited IH];
    intros k0 t0 Hk0 Hkeys; simpl.
  - split_and!; [done|lia| |by left]. intros kv Hin. by apply elem_of_nil in Hin.
  - apply Forall_cons in Hkeys as [Hkey Hkeys]. simpl in Hkey.
    rewrite (proj2 (is_empty_false k0)) by done. simpl.
    destruct (AccessedAt entry <? t0) eqn:Hlt.
    + apply Z.ltb_lt in Hlt.
      destruct (IH key (AccessedAt entry) Hkey Hkeys) as (Hne & Hle & Hmin & Hin).
      split_and!; [done|lia| |].
      * intros kv [->|Hkv]%elem_of_cons; [done|by apply Hmin].
      * right. destruct Hin as [->|(e & He & Ht)].
        -- exists entry. split; [left|done].
        -- exists e. split; [by right|done].
    + apply Z.ltb_ge in Hlt.
      destruct (IH k0 t0 Hk0 Hkeys) as (Hne & Hle & Hmin & Hin).
      split_and!; [done|done| |].
      * intros kv [->|Hkv]%elem_of_cons; [simpl; lia|by apply Hmin].
      * destruct Hin as [Heq|(e & He & Ht)]; [by left|].
        right. exists e. split; [by right|done].
Qed.

(** [evictOldest] chooses an entry whose access time is the least. *)
Lemma oldest_spec (visited : list (string * CacheEntry.t)) :
  visited ≠ [] →
  Forall (λ kv, kv.1 ≠ "") visited →
  (oldest visited).1 ≠ ""
  ∧ ∃ e, ((oldest visited).1, e) ∈ visited
         ∧ ∀ kv, kv ∈ visited → AccessedAt e ≤ AccessedAt kv.2.
Proof.
  destruct visited as [|[key entry] visited]; [done|]. intros _ Hkeys.
  apply Forall_cons in Hkeys as [Hkey Hkeys]. simpl in Hkey.
  unfold oldest. simpl.
  destruct (oldest_loop visited key (AccessedAt entry) Hkey Hkeys)
    as (Hne & Hle & Hmin & Hin).
  split; [done|].
  destruct Hin as [Heq|(e & He & Ht)].
  - exists entry. rewrite Heq in *. simpl in *. split; [left|].
    intros kv [->|Hkv]%elem_of_cons; [done|by apply Hmin].
  - exists e. split; [by right|]. rewrite <- Ht.
    intros kv [->|Hkv]%elem_of_cons; [done|by apply Hmin].
Qed.

Lemma Stat_nonempty fs name fileInfo :
  os.Stat fs name = Some fileInfo → name ≠ "".
Proof.
  unfold os.Stat. destruct (is_empty name) eqn:He; [discriminate|].
  intros _. by apply is_empty_false.
Qed.

(** One [Set]: the cache stays within its capacity, and an entry that was in
    the map after the insertion and is gone after the call had the least
    access time of the map. *)
Lemma Set_step tc c :
  spec.within_capacity tc → range_ok (spec.sc_order c) →
  spec.within_capacity (spec.run_Set element_String tc c)
  ∧ maxSize (spec.run_Set element_String tc c) = maxSize tc
  ∧ ∀ key victim,
      spec.stored element_String tc c !! key = Some victim →
      entries (spec.run_Set element_String tc c) !! key = None →
      ∀ key' entry',
        spec.stored element_String tc c !! key' = Some entry' →
        AccessedAt victim ≤ AccessedAt entry'.
Proof.
  intros (Hmax & Hempty & Hsize) Horder.
  unfold spec.run_Set, spec.stored, spec.within_capacity.
  rewrite Set_run. unfold final.
  destruct (os.Stat (spec.sc_fs c) (spec.sc_path c)) as [fileInfo|] eqn:Hst;
    [|simpl; split_and!; [done..|congruence]].
  cbv zeta. set (m := <[spec.sc_path c := _]> (entries tc)).
  assert (Hm_empty : m !! "" = None).
  { subst m. rewrite lookup_insert_ne; [done|].
    by apply Stat_nonempty in Hst. }
  assert (Hm_size : (size m ≤ S (size (entries tc)))%nat).
  { subst m. rewrite map_size_insert.
    destruct (entries tc !! spec.sc_path c); unfold id; lia. }
  destruct (maxSize tc <? Z.of_nat (size m)) eqn:Hfull.
  - apply Z.ltb_lt in Hfull.
    assert (Hne : spec.sc_order c m ≠ []).
    { intros Hnil. pose proof (Horder m) as Hperm. rewrite Hnil in Hperm.
      apply Permutation_nil_l in Hperm. symmetry in Hperm.
      apply map_to_list_empty_iff in Hperm. rewrite Hperm in Hfull.
      rewrite map_size_empty in Hfull. lia. }
    assert (Hkeys : Forall (λ kv, kv.1 ≠ "") (spec.sc_order c m)).
    { apply Forall_forall. intros [k e] Hin Hk. simpl in Hk. subst k.
      apply (range_ok_lookup _ m) in Hin; [|done]. congruence. }
    destruct (oldest_spec _ Hne Hkeys) as (Hk & e & Hin & Hmin).
    apply (range_ok_lookup _ m) in Hin; [|done].
    rewrite (proj2 (is_empty_false _)) by done. simpl.
    split_and!; [done| |..|done|].
    + by rewrite lookup_delete_ne.
    + rewrite map_size_delete_Some by done. lia.
    + intros key victim Hv Hgone key' entry' He'.
      destruct (decide ((oldest (spec.sc_order c m)).1 = key)) as [<-|Hne'].
      * rewrite Hin in Hv. injection Hv as <-.
        apply (Hmin (key', entry')). by apply (range_ok_lookup _ m).
      * rewrite lookup_delete_ne in Hgone by done. congruence.
  - apply Z.ltb_ge in Hfull. simpl.
    split_and!; [done..|]. intros key victim Hv Hgone. congruence.
Qed.

Lemma run_Sets_within_capacity calls tc :
  spec.within_capacity tc →
  Forall (λ c, range_ok (spec.sc_order c)) calls →
  spec.within_capacity (spec.run_Sets element_String tc calls)
  ∧ maxSize (spec.run_Sets element_String tc calls) = maxSize tc.
Proof.
  revert tc. induction calls as [|c calls IH]; intros tc Hok Hall; [done|].
  apply Forall_cons in Hall as [Hc Hall]. simpl.
  destruct (Set_step tc c Hok Hc) as (Hok' & Hmax & _).
  destruct (IH _ Hok' Hall) as [Hfin Hmax']. split; [done|congruence].
Qed.

(** C2. Over every sequence of [Set] calls on a cache of capacity [maxSize]
    (not negative) that starts within its capacity, the number of entries
    after each call is at most [maxSize]; and whenever a call removes an
    entry that was in the map after its insertion, the entry removed is one
    whose last-access time is the least of the map: the order of last
    access decides, not the order of insertion. *)
Theorem eviction_bound_and_lru tc calls :
  spec.within_capacity tc →
  Forall (λ c, range_ok (spec.sc_order c)) calls →
  (∀ done,
     done `prefix_of` calls →
     Z.of_nat (size (entries (spec.run_Sets element_String tc done)))
     ≤ maxSize tc)
  ∧ (∀ done c,
       (done ++ [c]) `prefix_of` calls →
       let before := spec.run_Sets element_String tc done in
       ∀ key victim,
         spec.stored element_String before c !! key = Some victim →
         entries (spec.run_Set element_String before c) !! key = None →
         ∀ key' entry',
           spec.stored element_String before c !! key' = Some entry' →
           AccessedAt victim ≤ AccessedAt entry').
Proof.
  intros Hok Hall. split.
  - intros done [rest ->]. apply Forall_app in Hall as [Hdone _].
    destruct (run_Sets_within_capacity done tc Hok Hdone)
      as [(_ & _ & Hsize) Hmax].
    by rewrite <- Hmax.
  - intros done c [rest ->] before.
    apply Forall_app in Hall as [Hall _].
    apply Forall_app in Hall as [Hdone Hc].
    apply (proj1 (Forall_singleton _ _)) in Hc.
    destruct (run_Sets_within_capacity done tc Hok Hdone) as [Hbefore _].
    by destruct (Set_step before c Hbefore Hc) as (_ & _ & Hev).
Qed.

End eviction_facts.

(** ** The locking discipline *)

Section locking_facts.

Context `{Externals} (element_String : models.PDFElement.t → string).

Import models cache cache.CacheEntry cache.TemplateCache spec.

(** [Set] writes under the exclusive lock. *)
Lemma Set_disciplined fs order now_created now_accessed filePath elements tc :
  disciplined Unlocked
    (events (Set_ element_String fs order now_created now_accessed filePath
                  elements tc)) = true.
Proof.
  rewrite Set_run. unfold events.
  destruct (os.Stat fs filePath); [|reflexivity]. cbv zeta.
  destruct (_ <? _); [destruct (negb _)|]; reflexivity.
Qed.

(** [Clear] writes under the exclusive lock. *)
Lemma Clear_disciplined tc : disciplined Unlocked (events (Clear tc)) = true.
Proof. reflexivity. Qed.

(** The events of a sequence are those of its parts, in order. *)
Lemma events_bind {A B} (m : M A) (f : A → M B) tc :
  events ((m ≫= f) tc)
  = events (m tc) ++ events (f (result (m tc)) (final (m tc))).
Proof.
  unfold mbind, M_bind, events, result, final.
  destruct (m tc) as [[a tc1] log1]. simpl.
  by destruct (f a tc1) as [[b tc2] log2].
Qed.

(** The deletions of one tick of [cleanup]: writes of the map only. *)
Lemma cleanup_deletions ttl now (visited : list (string * CacheEntry.t)) tc :
  Forall (λ ev, ev = WriteMap)
    (events
       (fold_right
          (λ '(key, entry) rest,
             (if ttl <? now - CreatedAt entry
              then delete_key key else mret tt);;
             rest)
          (mret tt) visited tc)).
Proof.
  revert tc. induction visited as [|[key entry] visited IH]; intros tc.
  - constructor.
  - cbn [fold_right]. rewrite events_bind. apply Forall_app. split; [|apply IH].
    destruct (ttl <? now - CreatedAt entry); [by constructor|constructor].
Qed.

Lemma disciplined_writes log :
  Forall (λ ev, ev = WriteMap) log →
  disciplined Exclusive (log ++ [Unlock]) = true.
Proof. induction 1 as [|ev log -> _ IH]; [reflexivity|]. simpl. apply IH. Qed.

(** One tick of [cleanup] deletes under the exclusive lock. *)
Lemma cleanup_tick_disciplined order now tc :
  disciplined Unlocked (events (cleanup_tick order now tc)) = true.
Proof.
  unfold cleanup_tick. rewrite !events_bind.
  change (events (emit Lock tc)) with [Lock].
  change (final (emit Lock tc)) with tc.
  change (events (read_entries tc)) with [ReadMap].
  change (final (read_entries tc)) with tc.
  change (result (read_entries tc)) with (entries tc).
  change (events (get_ttl tc)) with (@nil Event).
  change (final (get_ttl tc)) with tc.
  change (result (get_ttl tc)) with (ttl tc).
  cbn [app disciplined].
  match goal with
  | |- disciplined Exclusive (?dels ++ events (emit Unlock ?tc')) = true =>
      change (events (emit Unlock tc')) with [Unlock]
  end.
  apply disciplined_writes, cleanup_deletions.
Qed.

(** C8 (the code departs from the claim).  [Get] takes the lock in shared
    mode only, and whenever the cache holds an entry for the path it writes
    while holding it: it deletes the entry from the map when the entry is
    stale, and it writes the access time of the entry on a hit.  No path of
    [Get] on an existing entry keeps the discipline that [Set], [Clear] and
    [cleanup] keep. *)
Theorem Get_writes_under_shared_lock fs now_since now_touch filePath tc entry :
  entries tc !! filePath = Some entry →
  let log := events (Get fs now_since now_touch filePath tc) in
  disciplined Unlocked log = false
  ∧ (shared_writes Unlocked log = [WriteMap]
     ∨ shared_writes Unlocked log = [WriteEntry])
  ∧ (is_Some (result (Get fs now_since now_touch filePath tc)) →
     shared_writes Unlocked log = [WriteEntry]).
Proof.
  intros He log. subst log. rewrite Get_run, He. unfold events, result.
  destruct (os.Stat fs filePath) as [fileInfo|];
    [|simpl; split_and!; [done|by left|by intros [? [=]]]].
  cbv zeta.
  destruct (_ <? _); [simpl; split_and!; [done|by left|by intros [? [=]]]|].
  destruct (_ <? _); simpl; split_and!;
    [done|by left|by intros [? [=]]|done|by right|done].
Qed.

End locking_facts.

(** ** Fonts *)

Section font_facts.

Context `{Externals}.

Import cache generators fpdf.

(** Once the marker is set, [setupFonts] does nothing. *)
Lemma setupFonts_loaded fs order fc pdf :
  IsSystemLoaded fc = true → setupFonts fs order fc pdf = (fc, pdf).
Proof. intros Hl. unfold setupFonts. by rewrite Hl. Qed.

(** Every call of [setupFonts] leaves the marker set. *)
Lemma setupFonts_marks fs order fc pdf :
  IsSystemLoaded (setupFonts fs order fc pdf).1 = true.
Proof.
  unfold setupFonts. destruct (IsSystemLoaded fc) eqn:Hl; [done|].
  by destruct (fold_left _ _ _).
Qed.

(** The first call, on an instance with the marker unset, ends with the
    default font set on that instance. *)
Lemma setupFonts_first fs order fc pdf :
  IsSystemLoaded fc = false →
  ∃ calls, (setupFonts fs order fc pdf).2 = calls ++ [SetFont "Tahoma" "" 10].
Proof.
  intros Hl. unfold setupFonts. rewrite Hl.
  destruct (fold_left _ _ _) as [fc' pdf']. by eexists.
Qed.

(** C9 (the code departs from the claim).  The marker that [setupFonts]
    tests belongs to the one font cache of the process, not to the
    document: after any call of [setupFonts], on any document, a call on
    another document returns at once.  A second new document of the pool
    receives no font and no default font; only repeated calls on the same
    document behave as the claim says. *)
Theorem fresh_instance_gets_no_fonts fs order1 order2 fc :
  let first := pool_New fs order1 fc in
  let second := pool_New fs order2 first.1 in
  second.2 = []
  ∧ ∀ order pdf, setupFonts fs order first.1 pdf = (first.1, pdf).
Proof.
  intros first second. subst first second. unfold pool_New.
  pose proof (setupFonts_marks fs order1 fc []) as Hmark.
  split.
  - by rewrite setupFonts_loaded.
  - intros order pdf. by apply setupFonts_loaded.
Qed.

End font_facts.

(** ** Variable resolution *)

Section resolution_facts.

Context `{Externals}.

Import models utils generators.

Lemma fold_left_fixed {A B} (f : A → B → A) (l : list B) (a : A) :
  (∀ b, f a b = a) → fold_left f l a = a.
Proof.
  intros Hf. induction l as [|b l IH]; cbn [fold_left]; [done|]. by rewrite Hf.
Qed.

Lemma ReplaceVariables_no_placeholder order text data :
  (∀ key, strings.Contains text (placeholder key) = false) →
  ReplaceVariables order text data = text.
Proof.
  intros Hno. unfold ReplaceVariables. apply fold_left_fixed.
  intros [key value]. cbn [fst snd]. apply ReplaceAll_absent, Hno.
Qed.

Lemma replace_one_no_placeholder order data text name :
  (∀ key, strings.Contains text (placeholder key) = false) →
  replace_one order data text name = text.
Proof.
  intros Hno. unfold replace_one.
  destruct (data !! name); [apply ReplaceAll_absent, Hno|].
  destruct (fold_match order data name) as [[k val]|]; [|done].
  apply ReplaceAll_absent, Hno.
Qed.

Lemma ReplaceVariablesInArray_no_placeholder order text variableName data :
  (∀ key, strings.Contains text (placeholder key) = false) →
  ReplaceVariablesInArray order text variableName data = text.
Proof.
  intros Hno. unfold ReplaceVariablesInArray.
  destruct (_ || _); [by apply replace_one_no_placeholder|].
  generalize (strings.Split (strings.Trim variableName "[]") ",").
  intros vars. generalize 0%nat.
  induction vars as [|v vars IH]; intros i; cbn [fold_left]; [done|].
  rewrite replace_one_no_placeholder by done. apply IH.
Qed.

(** No key of the data equals the name up to case: the loop over the data
    finds nothing, in whatever order it visits them. *)
Lemma fold_match_absent order data name :
  range_ok order →
  (∀ key val, data !! key = Some val →
     strings_EqualFold (strings.TrimRight key ":") name = false) →
  fold_match order data name = None.
Proof.
  intros Hok Hno. unfold fold_match.
  assert (Hall : ∀ kv, kv ∈ order data →
            strings_EqualFold (strings.TrimRight kv.1 ":") name = false).
  { intros [k v] Hin. apply (range_ok_lookup _ data) in Hin; [|done].
    by eapply Hno. }
  induction (order data) as [|kv l IH]; [done|]. cbn [find].
  rewrite Hall by left. apply IH. intros kv' Hin. apply Hall. by right.
Qed.

(** C4. Resolution degrades and never fails.  A text that holds no
    placeholder is returned as it is, for every binding and every data
    context.  A single binding whose identifier is no key of the data, and
    equals no key up to case once the trailing colons of the key are
    dropped, returns the text as it is, its placeholder left in place.  And
    resolution has a string for every input: it has no error to return. *)
Theorem resolution_degrades :
  (∀ order text variableName data,
     (∀ key, strings.Contains text (placeholder key) = false) →
     replaceVariables order text variableName data = text)
  ∧ (∀ order text name data,
       negb (strings.HasPrefix name "[") || negb (strings.HasSuffix name "]")
       = true →
       data !! name = None →
       (∀ key val, data !! key = Some val →
          strings_EqualFold (strings.TrimRight key ":") name = false) →
       range_ok (order 0%nat) →
       ReplaceVariablesInArray order text name data = text
       ∧ (name ≠ "" → replaceVariables order text name data = text))
  ∧ (∀ order text variableName data,
       ∃ out : string, replaceVariables order text variableName data = out).
Proof.
  split_and!.
  - intros order text variableName data Hno. unfold replaceVariables.
    destruct (negb _).
    + by apply ReplaceVariablesInArray_no_placeholder.
    + by apply ReplaceVariables_no_placeholder.
  - intros order text name data Hsingle Hexact Hfold Hok.
    assert (Hres : ReplaceVariablesInArray order text name data = text).
    { unfold ReplaceVariablesInArray. rewrite Hsingle.
      unfold replace_one. rewrite Hexact.
      by rewrite fold_match_absent. }
    split; [done|]. intros Hne. unfold replaceVariables.
    by rewrite (proj2 (is_empty_false name)).
  - intros order text variableName data. by eexists.
Qed.

End resolution_facts.

(** ** Loop elements *)

Section loop_facts.

Context `{Externals}.

Import models models.PDFElement generators fpdf.

Lemma set_Position_Y_same e :
  set_Position_Y (Position.Y (Position e)) e = e.
Proof. destruct e as [? ? ? ? [x y] ? ? ? ? ? ? ?]. reflexivity. Qed.

Lemma Validate_LoopField e e' err :
  Validate e = (e', err) →
  LoopField e' = LoopField e ∧ Position e' = Position e ∧ Size e' = Size e.
Proof.
  intros Hv.
  destruct (Validate_result e) as [He|(He & _)];
    rewrite Hv in He; simpl in He; subst e'; by destruct e.
Qed.

(** The copy that [processLoopElement] makes for an item keeps the loop
    field, so [processElement] hands it to [processLoopElement] again, with
    the array still in the data: on an array that is not empty the two
    functions call each other without end, whatever the depth allowed. *)
Lemma processElement_loop_diverges fuel fs order ledger pdf element data
    arrayName fieldName item items :
  strings.Split (LoopField element) "." = [arrayName; fieldName] →
  (Validate element).2 = None →
  data !! arrayName = Some (VList (item :: items)) →
  processElement fuel fs order ledger pdf element data = None.
Proof.
  revert ledger pdf element data.
  induction fuel as [|fuel IH]; intros ledger pdf element data Hsplit Hval Hdata;
    [reflexivity|].
  cbn [processElement].
  destruct (Validate element) as [e' [err|]] eqn:Hv; [discriminate|].
  destruct (Validate_LoopField _ _ _ Hv) as (Hloop & Hpos & Hsize).
  unfold IsLoopElement.
  rewrite (proj2 (is_empty_false (LoopField e'))); simpl.
  2:{ rewrite Hloop. by eapply Split_two_nonempty. }
  unfold processLoopElement. rewrite Hloop, Hsplit, Hdata.
  cbn [loop_items]. unfold Clone. rewrite set_Position_Y_same.
  rewrite IH; [done|by rewrite Hloop|..].
  - by rewrite (Validate_idempotent _ _ Hv).
  - rewrite lookup_insert_ne; [done|].
    rewrite Hloop. by eapply Split_two_first.
Qed.

(** On an empty array the loop element returns: nothing is drawn, and the
    declared y is recorded for the array. *)
Lemma processElement_loop_empty fuel fs order ledger pdf element data
    arrayName fieldName :
  strings.Split (LoopField element) "." = [arrayName; fieldName] →
  (Validate element).2 = None →
  data !! arrayName = Some (VList []) →
  processElement (S fuel) fs order ledger pdf element data
  = Some (<[arrayName := Position.Y (Position element)]> ledger, pdf, None).
Proof.
  intros Hsplit Hval Hdata. cbn [processElement].
  destruct (Validate element) as [e' [err|]] eqn:Hv; [discriminate|].
  destruct (Validate_LoopField _ _ _ Hv) as (Hloop & Hpos & Hsize).
  unfold IsLoopElement.
  rewrite (proj2 (is_empty_false (LoopField e'))); simpl.
  2:{ rewrite Hloop. by eapply Split_two_nonempty. }
  unfold processLoopElement. rewrite Hloop, Hsplit, Hdata. simpl.
  by rewrite Hpos.
Qed.

(** C5 (the code departs from the claim).  A loop element bound to an array
    of N items, N at least 1, draws no copy at all: [processElement] does
    not return for it, at any depth of calls, because the copy made for the
    first item is a loop element over the same array again.  (The claim
    holds of the code for N = 0 only.) *)
Theorem loop_element_never_returns fuel fs order ledger pdf element data
    arrayName fieldName item items :
  strings.Split (LoopField element) "." = [arrayName; fieldName] →
  (Validate element).2 = None →
  data !! arrayName = Some (VList (item :: items)) →
  processElement fuel fs order ledger pdf element data = None.
Proof. apply processElement_loop_diverges. Qed.

End loop_facts.

(** ** The position ledger *)

Section ledger_facts.

Context `{Externals}.

Import fpdf spec.


(** [advance] is [n] steps above [y]. *)
Lemma advance_closed n y step :
  (advance n y step == y + inject_Z (Z.of_nat n) * step)%Q.
Proof.
  revert y. induction n as [|n IH]; intros y.
  - simpl. ring.
  - cbn [advance]. rewrite IH, Nat2Z.inj_succ. unfold Z.succ.
    rewrite inject_Z_plus. ring.
Qed.


(** *** The first renderer *)




(** *** The generator *)



End ledger_facts.

Section ledger_theorems.

Context `{Externals}.

Import fpdf spec.



End ledger_theorems.

(** ** The theorems at work on the examples *)

Section examples_facts.

Import examples.

Local Existing Instance reference.externals.

(** With [ReuseRecord] set the headers are overwritten by the row: the row
    of the template is read under its own fields as column names, no
    column named [width] is found, and the element is refused for its width
    of 0. *)
Lemma reused_record_hides_the_headers :
  parsers.parseCSVFile files "t.csv" = parsers.Ok []
  ∧ parsers.row_data ["text"; "Cell"] ["text"; "Cell"] !! "method" = None
  ∧ models.Size.Width
      (models.PDFElement.Size
         (parsers.createElementFromRow ["text"; "Cell"] ["text"; "Cell"]))
    = 0%Q.
Proof. split_and!; reflexivity. Qed.

(** The order of last access decides, not the order of insertion: of two
    entries the one created first but read since is kept, and the one
    created later is removed. *)
Lemma eviction_follows_last_access :
  let created_first := cache.CacheEntry.mk [] "" 10 40 5 in
  let created_later := cache.CacheEntry.mk [] "" 20 20 5 in
  let tc :=
    cache.TemplateCache.mk
      {[ "t.csv" := created_first; "bad.csv" := created_later ]} 2 1000 in
  let tc' := cache.final (cache.evictOldest order_entries tc) in
  cache.TemplateCache.entries tc' !! "t.csv" = Some created_first
  ∧ cache.TemplateCache.entries tc' !! "bad.csv" = None.
Proof. vm_compute. split; reflexivity. Qed.


Lemma cache_fetch_correct_witness :
  let first :=
    parsers.ParseCSV reference.element_String files order_entries 1 2 3 4
                     "t.csv" (cache.NewTemplateCache 100 1000) in
  let second :=
    parsers.ParseCSV reference.element_String files order_entries 5 6 7 8
                     "t.csv" (cache.final first) in
  cache.result first = cache.result second
  ∧ cache.result (cache.Get files 50 51 "t.csv" warm_cache) = Some [].
Proof.
  destruct (cache_fetch_correct reference.element_String)
    as (Hget & Htwice & _).
  split.
  - refine (proj1 (Htwice files order_entries order_entries 1 2 3 4 5 6 7 8
                          "t.csv" (cache.NewTemplateCache 100 1000) _)).
    intros entry fileInfo Hentry. vm_compute in Hentry. discriminate.
  - apply (proj1 (Hget files 50 51 "t.csv" warm_cache)).
    exists (cache.CacheEntry.mk [] "" 10 10 5), template.
    vm_compute. split_and!; try reflexivity; discriminate.
Defined.

Lemma eviction_bound_and_lru_witness :
  Z.of_nat (size (cache.TemplateCache.entries
                    (spec.run_Sets reference.element_String small_cache
                                   two_sets))) ≤ 1.
Proof.
  refine (proj1 (eviction_bound_and_lru reference.element_String small_cache
                   two_sets _ _) two_sets _).
  - vm_compute. split_and!; [discriminate|reflexivity|discriminate].
  - repeat constructor; apply range_ok_map_to_list.
  - reflexivity.
Defined.

Lemma mismatched_row_fails_the_parse_witness :
  parsers.parseCSVFile files "bad.csv"
  = parsers.Err (parsers.ErrRow 2 csv.ErrFieldCount).
Proof.
  apply (mismatched_row_fails_the_parse files "bad.csv" short_row
           ["type"; "method"] [] ["text"] []).
  - reflexivity.
  - reflexivity.
  - discriminate.
  - constructor.
  - simpl. lia.
Defined.

Lemma resolution_degrades_witness :
  utils.ReplaceVariablesInArray order_data "Total: {{total}}" "total"
                                {[ "Name:" := VString "Bob" ]}
  = "Total: {{total}}"
  ∧ generators.replaceVariables order_data "No variables here" "total"
                                {[ "total" := VString "12" ]}
    = "No variables here".
Proof.
  destruct resolution_degrades as (Hplain & Habsent & _). split.
  - apply Habsent.
    + reflexivity.
    + reflexivity.
    + intros key val Hkey. apply lookup_singleton_Some in Hkey as [<- _].
      reflexivity.
    + apply range_ok_map_to_list.
  - apply Hplain. intros key.
    assert (Hno : ∀ s, strings.Contains "No variables here"
                         (String "{"%char s) = false) by reflexivity.
    apply Hno.
Defined.

Lemma loop_element_never_returns_witness :
  generators.processElement 1000 ∅ order_data ∅ [] loop_element input = None.
Proof.
  apply (loop_element_never_returns 1000 ∅ order_data ∅ [] loop_element input
           "items" "description"
           (VMap {[ "description" := VString "A"; "price" := VString "1" ]})
           [VMap {[ "description" := VString "B"; "price" := VString "2" ]}]).
  - reflexivity.
  - reflexivity.
  - reflexivity.
Defined.



Lemma Get_writes_under_shared_lock_witness :
  spec.disciplined spec.Unlocked
    (cache.events (cache.Get files 50 51 "t.csv" warm_cache)) = false.
Proof.
  refine (proj1 (Get_writes_under_shared_lock files 50 51 "t.csv" warm_cache
                   (cache.CacheEntry.mk [] "" 10 10 5) _)).
  reflexivity.
Defined.

Lemma Validate_writes_only_empty_barcode_format_witness :
  models.PDFElement.BarcodeFormat (models.Validate barcode_element).1
  = "Code128"
  ∧ (models.Validate loop_element).1 = loop_element.
Proof.
  destruct (Validate_writes_only_empty_barcode_format barcode_element)
    as [Hset _].
  destruct (Validate_writes_only_empty_barcode_format loop_element)
    as [_ Hkeep].
  split.
  - apply Hset; reflexivity.
  - apply Hkeep. left. discriminate.
Defined.

End examples_facts.

(** * Part III: further properties of the code *)

(** ** The cache: frame, invalidation, round trip, sweep *)

Section cache_more.

Context `{Externals} (element_String : models.PDFElement.t → string).

Import models cache cache.CacheEntry cache.TemplateCache spec.

(** X1. [Get] touches one entry at most: the capacity and the TTL stay, the
    entries of all other paths stay, the number of entries does not grow,
    and on a hit the entry of the path is kept with its access time set to
    the time of the call and every other field as it was. *)
Theorem Get_touches_one_entry fs now_since now_touch filePath tc :
  let tc' := final (Get fs now_since now_touch filePath tc) in
  maxSize tc' = maxSize tc
  ∧ ttl tc' = ttl tc
  ∧ (∀ key, key ≠ filePath → entries tc' !! key = entries tc !! key)
  ∧ (size (entries tc') ≤ size (entries tc))%nat
  ∧ (∀ els,
       result (Get fs now_since now_touch filePath tc) = Some els →
       ∃ entry,
         entries tc !! filePath = Some entry
         ∧ entries tc' !! filePath = Some (set_AccessedAt now_touch entry)).
Proof.
  intros tc'. subst tc'. rewrite Get_run. unfold final, result.
  assert (Hdrop :
    let dropped : option (list PDFElement.t) * TemplateCache.t * list Event :=
      (None, set_entries (delete filePath (entries tc)) tc,
       [RLock; ReadMap; WriteMap; RUnlock]) in
    maxSize dropped.1.2 = maxSize tc ∧ ttl dropped.1.2 = ttl tc
    ∧ (∀ key, key ≠ filePath →
         entries dropped.1.2 !! key = entries tc !! key)
    ∧ (size (entries dropped.1.2) ≤ size (entries tc))%nat
    ∧ (∀ els, dropped.1.1 = Some els →
         ∃ entry, entries tc !! filePath = Some entry
                  ∧ entries dropped.1.2 !! filePath
                    = Some (set_AccessedAt now_touch entry))).
  { simpl. split_and!; [done..| | |done].
    - intros key Hne. by rewrite lookup_delete_ne.
    - rewrite map_size_delete. destruct (entries tc !! filePath); simpl; lia. }
  destruct (entries tc !! filePath) as [entry|] eqn:He.
  2:{ simpl. split_and!; [done..|lia|done]. }
  cbv zeta. destruct (os.Stat fs filePath) as [fileInfo|]; [|exact Hdrop].
  destruct (_ <? _); [exact Hdrop|].
  destruct (_ <? _); [exact Hdrop|].
  simpl. split_and!; [done..| | |].
  - intros key Hne. by rewrite lookup_alter_ne.
  - assert (Hsame : size (alter (set_AccessedAt now_touch) filePath (entries tc))
                    = size (entries tc)); [|lia].
    rewrite <- !(size_dom (D := gset string)). by rewrite dom_alter_L.
  - intros els _. exists entry. split; [done|].
    by rewrite lookup_alter_eq, He.
Qed.

End cache_more.

Section cache_invalidation.

Context `{Externals} (element_String : models.PDFElement.t → string).

Import models cache cache.CacheEntry cache.TemplateCache spec.

(** X2. An entry that is no longer good is removed by the [Get] that finds
    it: when the file cannot be examined, when the file is newer than the
    entry, or when the entry is older than the TTL (whatever the file),
    [Get] reports a miss and the cache it leaves is the cache without the
    entry of that path. *)
Theorem Get_removes_stale_entry fs now_since now_touch filePath tc entry :
  entries tc !! filePath = Some entry →
  os.Stat fs filePath = None
  ∨ (∃ fileInfo, os.Stat fs filePath = Some fileInfo
                 ∧ FileModTime entry < os.File.ModTime fileInfo)
  ∨ ttl tc < now_since - CreatedAt entry →
  result (Get fs now_since now_touch filePath tc) = None
  ∧ final (Get fs now_since now_touch filePath tc)
    = set_entries (delete filePath (entries tc)) tc.
Proof.
  intros He Hstale. rewrite Get_run, He. unfold result, final. cbv zeta.
  destruct (os.Stat fs filePath) as [fileInfo|] eqn:Hst; [|done].
  destruct (FileModTime entry <? os.File.ModTime fileInfo) eqn:Hmod; [done|].
  destruct (ttl tc <? now_since - CreatedAt entry) eqn:Httl; [done|].
  apply Z.ltb_ge in Hmod, Httl.
  destruct Hstale as [?|[(fi & [= <-] & ?)|?]]; [done|lia|lia].
Qed.

(** X3. What [Set] stores, [Get] returns: in a cache within its capacity,
    of capacity 1 at least, a [Set] of a file that can be examined, made at
    a time after the last access of every other entry, is followed by a hit
    with the very elements stored, as long as the file is the same and the
    entry is not older than the TTL. *)
Theorem Set_then_Get fs order now_created now_accessed now_since now_touch
    filePath elements tc fileInfo :
  within_capacity tc → 1 ≤ maxSize tc → range_ok order →
  os.Stat fs filePath = Some fileInfo →
  (∀ key entry, entries tc !! key = Some entry → key ≠ filePath →
     AccessedAt entry < now_accessed) →
  now_since - now_created ≤ ttl tc →
  result
    (Get fs now_since now_touch filePath
         (final (Set_ element_String fs order now_created now_accessed
                      filePath elements tc)))
  = Some elements.
Proof.
  intros (Hmax & Hempty & Hsize) Hone Horder Hst Hold Httl.
  set (new := CacheEntry.mk elements (calculateHash element_String elements)
                            now_created now_accessed (os.File.ModTime fileInfo)).
  assert (Hkept : entries (final (Set_ element_String fs order now_created
                                       now_accessed filePath elements tc))
                  !! filePath = Some new
                  ∧ ttl (final (Set_ element_String fs order now_created
                                     now_accessed filePath elements tc))
                    = ttl tc).
  { rewrite Set_run, Hst. unfold final. cbv zeta. fold new.
    set (m := <[filePath := new]> (entries tc)).
    destruct (maxSize tc <? Z.of_nat (size m)) eqn:Hfull;
      [|simpl; split; [apply lookup_insert_eq|done]].
    apply Z.ltb_lt in Hfull.
    assert (Hm_empty : m !! "" = None).
    { subst m. rewrite lookup_insert_ne; [done|]. by apply Stat_nonempty in Hst. }
    assert (Hne : order m ≠ []).
    { intros Hnil. pose proof (Horder m) as Hperm. rewrite Hnil in Hperm.
      apply Permutation_nil_l in Hperm. symmetry in Hperm.
      apply map_to_list_empty_iff in Hperm. rewrite Hperm in Hfull.
      rewrite map_size_empty in Hfull. lia. }
    assert (Hkeys : Forall (λ kv, kv.1 ≠ "") (order m)).
    { apply Forall_forall. intros [k e] Hin Hk. simpl in Hk. subst k.
      apply (range_ok_lookup _ m) in Hin; [|done]. congruence. }
    destruct (oldest_spec _ Hne Hkeys) as (Hk & e & Hin & Hmin).
    apply (range_ok_lookup _ m) in Hin; [|done].
    rewrite (proj2 (is_empty_false _)) by done. simpl.
    split; [|done].
    destruct (decide ((oldest (order m)).1 = filePath)) as [Heq|Hother];
      [|by subst m; rewrite lookup_delete_ne, lookup_insert_eq].
    exfalso. rewrite Heq in Hin. subst m. rewrite lookup_insert_eq in Hin.
    injection Hin as <-.
    assert (Honly : <[filePath := new]> (entries tc) = {[ filePath := new ]}).
    { apply map_eq. intros k. destruct (decide (k = filePath)) as [->|Hk'].
      - by rewrite lookup_insert_eq, lookup_singleton_eq.
      - rewrite lookup_insert_ne, lookup_singleton_ne by done.
        destruct (entries tc !! k) as [e'|] eqn:He'; [|done]. exfalso.
        specialize (Hold k e' He' Hk').
        specialize (Hmin (k, e')). simpl in Hmin.
        assert ((k, e') ∈ order (<[filePath := new]> (entries tc))) as Hin'.
        { apply range_ok_lookup; [done|]. by rewrite lookup_insert_ne. }
        specialize (Hmin Hin'). lia. }
    rewrite Honly, map_size_singleton in Hfull. lia. }
  destruct Hkept as [Hnew Hsame].
  apply Get_hit. exists new, fileInfo.
  split_and!; [done|done|simpl; lia|rewrite Hsame; simpl; lia|done].
Qed.

(** X4. Caching again a template that is cached replaces its entry and
    removes nothing: in a cache within its capacity the map after the [Set]
    is the map before with the new entry under the path. *)
Theorem Set_replaces_in_place fs order now_created now_accessed filePath
    elements tc fileInfo :
  within_capacity tc →
  is_Some (entries tc !! filePath) →
  os.Stat fs filePath = Some fileInfo →
  entries (final (Set_ element_String fs order now_created now_accessed
                       filePath elements tc))
  = <[filePath :=
        CacheEntry.mk elements (calculateHash element_String elements)
                      now_created now_accessed (os.File.ModTime fileInfo)]>
      (entries tc).
Proof.
  intros (Hmax & Hempty & Hsize) Hsome Hst.
  rewrite Set_run, Hst. unfold final. cbv zeta.
  rewrite map_size_insert_Some by done.
  by rewrite (proj2 (Z.ltb_ge _ _)) by lia.
Qed.

(** X5. A cache of capacity 0 never holds anything: every [Set] on the
    empty cache removes at once the entry that it has stored. *)
Theorem zero_capacity_keeps_nothing fs order now_created now_accessed filePath
    elements tc :
  maxSize tc = 0 → entries tc = ∅ → range_ok order →
  entries (final (Set_ element_String fs order now_created now_accessed
                       filePath elements tc)) = ∅.
Proof.
  intros Hzero Hnone Horder.
  assert (Hok : within_capacity tc).
  { unfold within_capacity. rewrite Hzero, Hnone, map_size_empty.
    split_and!; [lia|done|lia]. }
  pose (c := mkSetCall fs order now_created now_accessed filePath elements).
  destruct (Set_step element_String tc c Hok Horder) as ((_ & _ & Hsize) & Hmax & _).
  unfold run_Set in Hsize, Hmax. simpl in Hsize, Hmax.
  apply map_size_empty_iff. rewrite Hmax, Hzero in Hsize. lia.
Qed.

(** The deletions of a tick, entry by entry: a key is gone when it was
    visited with an entry older than the TTL, and is as before otherwise. *)
Lemma cleanup_loop_lookup ttl now (visited : list (string * CacheEntry.t)) tc k :
  entries
    (final
       (fold_right
          (λ '(key, entry) rest,
             (if ttl <? now - CreatedAt entry
              then delete_key key else mret tt);;
             rest)
          (mret tt) visited tc)) !! k
  = if bool_decide
         (Exists (λ kv, kv.1 = k ∧ ttl < now - CreatedAt kv.2) visited)
    then None else entries tc !! k.
Proof.
  revert tc. induction visited as [|[key entry] visited IH]; intros tc.
  - cbn [fold_right]. rewrite bool_decide_eq_false_2; [done|].
    by intros ?%Exists_nil.
  - cbn [fold_right].
    assert (Hbind : ∀ (m : M unit) (f : unit → M unit) tc0,
              final ((m ≫= f) tc0) = final (f tt (final (m tc0)))).
    { intros m f tc0. unfold mbind, M_bind, final.
      destruct (m tc0) as [[[] tc1] log1]. simpl.
      by destruct (f tt tc1) as [[[] tc2] log2]. }
    rewrite Hbind, IH.
    destruct (ttl <? now - CreatedAt entry) eqn:Hexp.
    + apply Z.ltb_lt in Hexp. unfold delete_key, final. simpl.
      case_bool_decide as Hrest.
      * rewrite bool_decide_eq_true_2; [done|]. by apply Exists_cons_tl.
      * destruct (decide (k = key)) as [->|Hne].
        -- rewrite lookup_delete_eq, bool_decide_eq_true_2; [done|].
           by apply Exists_cons_hd.
        -- rewrite lookup_delete_ne by done.
           rewrite bool_decide_eq_false_2; [done|].
           intros [[Hk _]|Hin]%Exists_cons; [by simpl in Hk|done].
    + apply Z.ltb_ge in Hexp. unfold mret, M_ret, final. simpl.
      case_bool_decide as Hrest.
      * rewrite bool_decide_eq_true_2; [done|]. by apply Exists_cons_tl.
      * rewrite bool_decide_eq_false_2; [done|].
        intros [[_ Hlt]|Hin]%Exists_cons; [simpl in Hlt; lia|done].
Qed.

(** X6. One tick of the sweep removes the entries older than the TTL and
    those only: the map it leaves is the map before, filtered by age, in
    whatever order the map is visited; the capacity and the TTL stay. *)
Theorem cleanup_tick_removes_expired order now tc :
  range_ok order →
  let tc' := final (cleanup_tick order now tc) in
  entries tc'
  = filter (λ kv, ¬ (ttl tc < now - CreatedAt kv.2)) (entries tc)
  ∧ maxSize tc' = maxSize tc ∧ ttl tc' = ttl tc.
Proof.
  intros Horder tc'. subst tc'.
  assert (Hfinal_bind : ∀ A B (m : M A) (f : A → M B) tc0,
            final ((m ≫= f) tc0) = final (f (result (m tc0)) (final (m tc0)))).
  { intros A B m f tc0. unfold mbind, M_bind, final, result.
    destruct (m tc0) as [[a tc1] log1]. simpl.
    by destruct (f a tc1) as [[b tc2] log2]. }
  unfold cleanup_tick. rewrite !Hfinal_bind.
  change (final (emit Lock tc)) with tc.
  change (final (read_entries tc)) with tc.
  change (result (read_entries tc)) with (entries tc).
  change (final (get_ttl tc)) with tc.
  change (result (get_ttl tc)) with (ttl tc).
  set (loop := fold_right _ _ _).
  assert (Hemit : ∀ tc0, final (emit Unlock tc0) = tc0) by done.
  rewrite Hemit.
  assert (Hframe : ∀ visited tc0,
    maxSize (final (fold_right
      (λ '(key, entry) (rest : M unit),
         (if ttl tc <? now - CreatedAt entry
          then delete_key key else mret tt);; rest)
      (mret tt) visited tc0)) = maxSize tc0
    ∧ ttl (final (fold_right
      (λ '(key, entry) (rest : M unit),
         (if ttl tc <? now - CreatedAt entry
          then delete_key key else mret tt);; rest)
      (mret tt) visited tc0)) = ttl tc0).
  { induction visited as [|[key entry] visited IHv]; intros tc0; [done|].
    cbn [fold_right]. rewrite Hfinal_bind.
    destruct (IHv (final ((if ttl tc <? now - CreatedAt entry
                           then delete_key key else mret tt) tc0)))
      as [-> ->].
    by destruct (ttl tc <? now - CreatedAt entry). }
  split; [|apply Hframe].
  apply map_eq. intros k. subst loop. rewrite cleanup_loop_lookup.
  case_bool_decide as Hexp.
  - apply Exists_exists in Hexp as ([k' e] & Hin & Hk & He).
    simpl in Hk, He. subst k'.
    apply (range_ok_lookup _ (entries tc)) in Hin; [|done].
    symmetry. apply map_lookup_filter_None. right.
    intros e' He'. rewrite Hin in He'. injection He' as <-. simpl. lia.
  - destruct (entries tc !! k) as [e|] eqn:He.
    + symmetry. apply map_lookup_filter_Some. split; [done|]. simpl.
      intros Hlt. apply Hexp. apply Exists_exists. exists (k, e).
      split; [|done]. by apply (range_ok_lookup _ (entries tc)).
    + symmetry. apply map_lookup_filter_None. by left.
Qed.

End cache_invalidation.

Section cache_and_parser.

Context `{Externals} (element_String : models.PDFElement.t → string).

Import models cache cache.CacheEntry cache.TemplateCache spec.

(** X7. After [Clear] the cache is empty and stays usable: [Stats] reports
    0 entries with the capacity and the TTL that the cache had before, it
    changes nothing, and a [Get] of any path misses and leaves the cache
    empty. *)
Theorem Clear_empties_the_cache fs now_since now_touch filePath tc :
  let tc' := final (Clear tc) in
  result (parsers.GetCacheStats tc') = (0, maxSize tc, ttl tc)
  ∧ final (parsers.GetCacheStats tc') = tc'
  ∧ result (Get fs now_since now_touch filePath tc') = None
  ∧ final (Get fs now_since now_touch filePath tc') = tc'.
Proof.
  intros tc'. assert (Hnone : entries tc' = ∅) by done.
  split_and!; [done|done|..]; rewrite Get_run, Hnone, lookup_empty; done.
Qed.

(** X8. A parse that fails caches nothing: when [ParseCSV] returns an
    error, the cache holds no entry for the path afterwards, and every
    other entry is as it was before the call. *)
Theorem failed_parse_is_not_cached fs order t1 t2 t3 t4 filePath tc err :
  result (parsers.ParseCSV element_String fs order t1 t2 t3 t4 filePath tc)
  = parsers.Err err →
  let tc' :=
    final (parsers.ParseCSV element_String fs order t1 t2 t3 t4 filePath tc) in
  entries tc' !! filePath = None
  ∧ ∀ key, key ≠ filePath → entries tc' !! key = entries tc !! key.
Proof.
  rewrite ParseCSV_run. cbv zeta.
  destruct (result (Get fs t1 t2 filePath tc)) as [els|] eqn:Hget;
    [discriminate|].
  destruct (parsers.parseCSVFile fs filePath) as [els|err'] eqn:Hparse;
    [discriminate|].
  intros _. unfold final at 1 3. simpl.
  split; [by apply Get_miss|].
  intros key Hkey. revert Hget. rewrite Get_run. unfold result, final.
  destruct (entries tc !! filePath) as [entry|]; [|done]. cbv zeta.
  assert (Hdrop : entries (set_entries (delete filePath (entries tc)) tc) !! key
                  = entries tc !! key) by (simpl; by rewrite lookup_delete_ne).
  destruct (os.Stat fs filePath) as [fileInfo|]; [|done].
  destruct (FileModTime entry <? os.File.ModTime fileInfo); [done|].
  by destruct (ttl tc <? t1 - CreatedAt entry).
Qed.

(** X9. A cached template is served without the file being read: when the
    cache holds an entry for the path that is within the TTL, and the
    file's modification time is not after the one recorded, [ParseCSV]
    returns the cached elements, whatever the file contains now (also a
    file that would no longer parse), and only touches the entry. *)
Theorem cached_template_is_served_unread fs order t1 t2 t3 t4 filePath tc
    entry fileInfo :
  entries tc !! filePath = Some entry →
  os.Stat fs filePath = Some fileInfo →
  os.File.ModTime fileInfo ≤ FileModTime entry →
  t1 - CreatedAt entry ≤ ttl tc →
  result (parsers.ParseCSV element_String fs order t1 t2 t3 t4 filePath tc)
  = parsers.Ok (Elements entry)
  ∧ entries
      (final (parsers.ParseCSV element_String fs order t1 t2 t3 t4 filePath tc))
    = <[filePath := set_AccessedAt t2 entry]> (entries tc).
Proof.
  intros He Hst Hmod Httl. rewrite ParseCSV_run. cbv zeta.
  rewrite Get_run, He, Hst. cbv zeta.
  rewrite (proj2 (Z.ltb_ge _ _)) by lia.
  rewrite (proj2 (Z.ltb_ge _ _)) by lia.
  unfold result, final. simpl. split; [done|].
  apply map_eq. intros k. destruct (decide (k = filePath)) as [->|Hk].
  - by rewrite lookup_alter_eq, lookup_insert_eq, He.
  - by rewrite lookup_alter_ne, lookup_insert_ne.
Qed.

End cache_and_parser.

(** ** Fonts *)

Section fonts_more.

Context `{Externals}.

Import cache generators fpdf.

(** The two fonts are visited in one order or in the other. *)
Lemma order_fonts (order : RangeOrder string) :
  range_ok order →
  order fonts = [("Tahoma", "tahoma.ttf"); ("TahomaB", "tahomabd.TTF")]
  ∨ order fonts = [("TahomaB", "tahomabd.TTF"); ("Tahoma", "tahoma.ttf")].
Proof.
  intros Horder. pose proof (Horder fonts) as Hperm. unfold fonts in *.
  rewrite map_to_list_insert in Hperm by done.
  rewrite map_to_list_singleton in Hperm.
  symmetry in Hperm. apply Permutation_length_2_inv in Hperm.
  destruct Hperm as [->| ->]; auto.
Qed.

(** X10. Font files that are missing when the first document is set up are
    never looked for again: [setupFonts] then registers no font, sets the
    default font, leaves the table of loaded fonts as it was and sets the
    marker; every later call, with the files in place or not, on any
    document, does nothing. *)
Theorem missing_fonts_are_never_retried fs order fc pdf :
  range_ok order →
  IsSystemLoaded fc = false →
  os.Stat fs (fontPath "tahoma.ttf") = None →
  os.Stat fs (fontPath "tahomabd.TTF") = None →
  setupFonts fs order fc pdf
  = (MarkSystemLoaded fc, pdf ++ [SetFont "Tahoma" "" 10])
  ∧ ∀ fs' order' pdf',
      setupFonts fs' order' (setupFonts fs order fc pdf).1 pdf'
      = ((setupFonts fs order fc pdf).1, pdf').
Proof.
  intros Horder Hl Hr Hb.
  assert (Hrun : setupFonts fs order fc pdf
                 = (MarkSystemLoaded fc, pdf ++ [SetFont "Tahoma" "" 10])).
  { unfold setupFonts. rewrite Hl.
    destruct (order_fonts order Horder) as [-> | ->]; cbn [fold_left].
    - destruct (IsLoaded fc "Tahoma"); cbn [negb]; rewrite ?Hr;
        destruct (IsLoaded fc "TahomaB"); cbn [negb]; rewrite ?Hb; done.
    - destruct (IsLoaded fc "TahomaB"); cbn [negb]; rewrite ?Hb;
        destruct (IsLoaded fc "Tahoma"); cbn [negb]; rewrite ?Hr; done. }
  split; [done|]. intros fs' order' pdf'. rewrite Hrun.
  by apply setupFonts_loaded.
Qed.

(** X11. With both font files in place and no font loaded yet, the first
    [setupFonts] registers the regular and the bold face of Tahoma on the
    document, in one order or the other, then sets the default font, and
    records both fonts as loaded. *)
Theorem setupFonts_registers_both_faces fs order fc pdf :
  range_ok order →
  IsSystemLoaded fc = false →
  IsLoaded fc "Tahoma" = false → IsLoaded fc "TahomaB" = false →
  is_Some (os.Stat fs (fontPath "tahoma.ttf")) →
  is_Some (os.Stat fs (fontPath "tahomabd.TTF")) →
  ∃ added,
    (setupFonts fs order fc pdf).2 = pdf ++ added ++ [SetFont "Tahoma" "" 10]
    ∧ added ≡ₚ [AddUTF8Font "Tahoma" "" "tahoma.ttf";
                AddUTF8Font "Tahoma" "B" "tahomabd.TTF"]
    ∧ IsLoaded (setupFonts fs order fc pdf).1 "Tahoma" = true
    ∧ IsLoaded (setupFonts fs order fc pdf).1 "TahomaB" = true.
Proof.
  intros Horder Hl Hr Hb [fr Hfr] [fb Hfb].
  assert (Hr' : IsLoaded (MarkLoaded "TahomaB" fc) "Tahoma" = false).
  { revert Hr. unfold IsLoaded, MarkLoaded. simpl.
    by rewrite lookup_insert_ne. }
  assert (Hb' : IsLoaded (MarkLoaded "Tahoma" fc) "TahomaB" = false).
  { revert Hb. unfold IsLoaded, MarkLoaded. simpl.
    by rewrite lookup_insert_ne. }
  unfold setupFonts. rewrite Hl.
  destruct (order_fonts order Horder) as [-> | ->]; cbn [fold_left].
  - rewrite Hr, Hfr. cbn [negb]. rewrite Hb', Hfb. cbn [negb snd fst].
    exists [AddUTF8Font "Tahoma" "" "tahoma.ttf";
            AddUTF8Font "Tahoma" "B" "tahomabd.TTF"].
    split_and!; [by rewrite <- !app_assoc|done|..];
      unfold IsLoaded, MarkSystemLoaded, MarkLoaded; simpl.
    + by rewrite lookup_insert_ne, lookup_insert_eq.
    + by rewrite lookup_insert_eq.
  - rewrite Hb, Hfb. cbn [negb]. rewrite Hr', Hfr. cbn [negb snd fst].
    exists [AddUTF8Font "Tahoma" "B" "tahomabd.TTF";
            AddUTF8Font "Tahoma" "" "tahoma.ttf"].
    split_and!; [by rewrite <- !app_assoc|apply Permutation_swap|..];
      unfold IsLoaded, MarkSystemLoaded, MarkLoaded; simpl.
    + by rewrite lookup_insert_eq.
    + by rewrite lookup_insert_ne, lookup_insert_eq.
Qed.

End fonts_more.

(** ** The parser of templates *)

Section parser_more.

Context `{Externals}.

Import models models.PDFElement parsers.

(** A row read under itself as headers: every column holds its own name. *)
Lemma row_data_self l k v : row_data l l !! k = Some v → v = k.
Proof.
  unfold row_data.
  assert (Hgen : ∀ (data : gmap string string),
            (∀ k v, data !! k = Some v → v = k) →
            ∀ k v,
              fold_left (λ data hr, <[hr.1 := hr.2]> data) (zip l l) data !! k
              = Some v → v = k).
  { induction l as [|a l IH]; intros data Hdata k' v'; [apply Hdata|].
    cbn [zip zip_with fold_left fst snd]. apply IH.
    intros k0 v0. destruct (decide (k0 = a)) as [->|Hne].
    - rewrite lookup_insert_eq. congruence.
    - rewrite lookup_insert_ne by done. apply Hdata. }
  apply Hgen. intros k' v'. by rewrite lookup_empty.
Qed.

(** Such a row has no width: it is refused. *)
Lemma self_row_refused l :
  strconv_ParseFloat "width" = None →
  (Validate (createElementFromRow l l)).2 ≠ None.
Proof.
  intros Hwidth.
  set (e := createElementFromRow l l).
  assert (Hw : Size.Width (Size e)
               = utils.ParseFloat (get (row_data l l) "width")) by done.
  assert (Hzero : Size.Width (Size e) = 0%Q).
  { rewrite Hw. unfold get.
    destruct (row_data l l !! "width") as [v|] eqn:Hv; [|done].
    apply row_data_self in Hv as ->. cbn [from_option]. unfold id.
    unfold utils.ParseFloat.
    rewrite (proj2 (is_empty_false _)) by done. by rewrite Hwidth. }
  unfold Validate. destruct (is_empty (Type_ e)); [done|].
  destruct (_ || _); [done|]. rewrite Hzero.
  change (float64.leb 0 0) with true. by cbn [orb].
Qed.

(** The loop of [parseCSVFile] appends nothing: a row that is read has the
    number of fields of the headers and has been written over them. *)
Lemma parseRows_appends_nothing input :
  strconv_ParseFloat "width" = None →
  ∀ reader h headers elements rowIndex els,
    csv.len headers = 0%nat
    ∨ (csv.Reader.ReuseRecord reader = true
       ∧ csv.Reader.lastRecord reader = Some headers
       ∧ csv.Reader.FieldsPerRecord reader = Z.of_nat (csv.len headers)
       ∧ (0 < csv.len headers)%nat
       ∧ length (csv.array h headers) = csv.len headers
       ∧ (csv.arr headers < length h)%nat) →
    parseRows input reader h headers elements rowIndex = Ok els →
    els = elements.
Proof.
  intros Hwidth.
  induction input as [|next input IH];
    intros reader h headers elements rowIndex els Hinv; cbn [parseRows].
  { by intros [= <-]. }
  destruct next as [fields|]; [|discriminate].
  destruct Hinv as [Hzero|(Hreuse & Hlast & Hfpr & Hpos & Hcap & Harr)].
  - destruct (csv.read_record reader h (Some fields))
      as [[reader' h'] [record|err]]; [|discriminate].
    case_bool_decide as Hlen; [apply IH; by left|].
    assert (Hsame : csv.len record = csv.len headers)
      by (destruct (decide (csv.len record = csv.len headers)); done).
    unfold csv.elems. rewrite Hsame, Hzero. cbn [take].
    pose proof (self_row_refused [] Hwidth) as Hrefused.
    destruct (Validate (createElementFromRow [] [])) as [element [err|]];
      [apply IH; by left|done].
  - destruct headers as [a n]. cbn [csv.len csv.arr] in *.
    unfold csv.read_record. rewrite Hreuse, Hlast, Hfpr.
    unfold csv.fill, csv.cap. rewrite Hcap. cbn [csv.arr].
    rewrite (proj2 (Z.ltb_lt 0 (Z.of_nat n))) by lia.
    destruct (decide (length fields = n)) as [Hf|Hf].
    + rewrite (proj2 (Nat.ltb_ge _ _)) by lia.
      rewrite bool_decide_eq_false_2 by lia. rewrite Hf.
      rewrite bool_decide_eq_false_2 by (intros Hne; by apply Hne).
      set (h' := <[a := _]> h).
      pose proof (self_row_refused (csv.elems h' (csv.mkSlice a n)) Hwidth)
        as Hrefused.
      assert (Hinv' :
        csv.len (csv.mkSlice a n) = 0%nat
        ∨ (csv.Reader.ReuseRecord
             (csv.Reader.mk (Z.of_nat n) (csv.Reader.TrimLeadingSpace reader)
                            true (Some (csv.mkSlice a n))) = true
           ∧ csv.Reader.lastRecord
               (csv.Reader.mk (Z.of_nat n)
                              (csv.Reader.TrimLeadingSpace reader)
                              true (Some (csv.mkSlice a n)))
             = Some (csv.mkSlice a n)
           ∧ csv.Reader.FieldsPerRecord
               (csv.Reader.mk (Z.of_nat n)
                              (csv.Reader.TrimLeadingSpace reader)
                              true (Some (csv.mkSlice a n)))
             = Z.of_nat (csv.len (csv.mkSlice a n))
           ∧ (0 < csv.len (csv.mkSlice a n))%nat
           ∧ length (csv.array h' (csv.mkSlice a n))
             = csv.len (csv.mkSlice a n)
           ∧ (csv.arr (csv.mkSlice a n) < length h')%nat)).
      { right. split_and!; [done|done|done|done|..].
        - unfold csv.array, h'. cbn [csv.arr csv.len].
          rewrite list_lookup_insert_eq by done. cbn [from_option]. unfold id.
          rewrite length_app, length_drop. lia.
        - unfold h'. cbn [csv.arr]. by rewrite length_insert. }
      destruct (Validate (createElementFromRow _ _)) as [element [err|]];
        [by apply IH|done].
    + destruct (n <? length fields)%nat;
        rewrite bool_decide_eq_true_2 by lia; discriminate.
Qed.

(** X12. The parser of templates never returns an element.  It sets
    [ReuseRecord], so the slice of the headers is written over by every
    row read after it; each row is then read under its own fields as
    column names, no width is found, and [Validate] refuses the element.
    Whatever the file holds, a parse that succeeds returns the empty
    sequence.  (The hypothesis: [strconv.ParseFloat] rejects the word
    [width], as Go's does.) *)
Theorem parser_returns_no_element fs filePath els :
  strconv_ParseFloat "width" = None →
  parseCSVFile fs filePath = Ok els →
  els = [].
Proof.
  intros Hwidth. unfold parseCSVFile.
  destruct (os.Open fs filePath) as [file|]; [|discriminate].
  destruct (os.File.records file) as [|[headers|] input]; [discriminate| |discriminate].
  unfold csv.Read, csv.read_record, csv.fill, csv.NewReader. simpl.
  apply parseRows_appends_nothing; [done|].
  destruct headers as [|f headers]; [by left|right].
  split_and!; simpl; try done; lia.
Qed.

(** The loop of [ParseCSVFromReader] is the loop of [parseCSVFile]. *)
Lemma readerRows_parseRows input :
  ∀ reader h headers elements rowIndex,
    readerRows input reader h headers elements rowIndex
    = parseRows input reader h headers elements rowIndex.
Proof.
  induction input as [|next input IH];
    intros reader h headers elements rowIndex; [done|].
  cbn [readerRows parseRows].
  destruct (csv.read_record reader h next) as [[reader' h'] [record|err]];
    [|done].
  case_bool_decide; [apply IH|].
  destruct (Validate _) as [element [err|]]; apply IH.
Qed.

(** X13. [ParseCSVFromReader] on the bytes of a file returns what
    [parseCSVFile] returns for the file: the same elements, or the same
    error for the same row. *)
Theorem ParseCSVFromReader_agrees_with_the_file fs filePath file :
  os.Open fs filePath = Some file →
  ParseCSVFromReader (os.File.records file) = parseCSVFile fs filePath.
Proof.
  intros Hopen. unfold ParseCSVFromReader, parseCSVFile. rewrite Hopen.
  destruct (csv.Read _ _ _) as [[[reader input] h] [headers|err]]; [|done].
  apply readerRows_parseRows.
Qed.

End parser_more.

(** ** The first parser (invoice_from_csv_template.go) *)

Section legacy_parser.

Context `{Externals}.

Import legacy.

(** What a slice holds is not changed by a later allocation. *)
Lemma elems_alloc h fields s :
  (csv.arr s < length h)%nat →
  csv.elems (h ++ [fields]) s = csv.elems h s.
Proof.
  intros Hs. unfold csv.elems, csv.array. by rewrite lookup_app_l.
Qed.

(** The slice just allocated holds the record. *)
Lemma elems_new h fields :
  csv.elems (h ++ [fields]) (csv.mkSlice (length h) (length fields)) = fields.
Proof.
  unfold csv.elems, csv.array. cbn [csv.arr csv.len].
  rewrite list_lookup_middle by done. cbn [from_option]. unfold id.
  by rewrite firstn_all.
Qed.

(** [ReadAll] on records that all have the number of fields that the
    reader expects: every record gets an array of its own. *)
Lemma ReadAll_rows n rows :
  ∀ reader h recs,
    csv.Reader.ReuseRecord reader = false →
    csv.Reader.FieldsPerRecord reader = Z.of_nat n →
    Forall (λ fields, length fields = n) rows →
    Forall (λ s, (csv.arr s < length h)%nat) recs →
    ∃ h' recs',
      ReadAll (Some <$> rows) reader h recs = (h', inl recs')
      ∧ csv.elems h' <$> recs' = (csv.elems h <$> recs) ++ rows.
Proof.
  induction rows as [|fields rows IH];
    intros reader h recs Hreuse Hfpr Hall Hrecs.
  { exists h, recs. by rewrite app_nil_r. }
  apply Forall_cons in Hall as [Hf Hall].
  cbn [fmap list_fmap ReadAll].
  unfold csv.read_record. rewrite Hreuse, Hfpr. cbn [csv.fill].
  assert (Hrecs' : Forall (λ s, (csv.arr s < length (h ++ [fields]))%nat)
                          (recs ++ [csv.mkSlice (length h) (length fields)])).
  { apply Forall_app. split.
    - eapply Forall_impl; [exact Hrecs|]. intros s Hs.
      rewrite length_app. simpl in *. lia.
    - apply Forall_singleton. rewrite length_app. simpl. lia. }
  assert (Helems :
    csv.elems (h ++ [fields])
      <$> (recs ++ [csv.mkSlice (length h) (length fields)])
    = (csv.elems h <$> recs) ++ [fields]).
  { rewrite fmap_app. cbn [fmap list_fmap]. rewrite elems_new. f_equal.
    apply Forall_fmap_ext_1. eapply Forall_impl; [exact Hrecs|].
    intros s Hs. by apply elems_alloc. }
  destruct (0 <? Z.of_nat n) eqn:Hpos.
  - rewrite bool_decide_eq_false_2 by lia.
    edestruct (IH (csv.Reader.mk (Z.of_nat n)
                                 (csv.Reader.TrimLeadingSpace reader) false
                                 (csv.Reader.lastRecord reader)))
      as (h' & recs' & -> & Hout); [done|done|done|exact Hrecs'|].
    exists h', recs'. split; [done|]. by rewrite Hout, Helems, <- app_assoc.
  - assert (n = 0%nat) as -> by (apply Z.ltb_ge in Hpos; lia).
    rewrite Hf.
    edestruct (IH (csv.Reader.mk (Z.of_nat 0)
                                 (csv.Reader.TrimLeadingSpace reader) false
                                 (csv.Reader.lastRecord reader)))
      as (h' & recs' & Hrun & Hout); [done|done|done|exact Hrecs'|].
    rewrite Hf in Hrun.
    exists h', recs'. split; [by destruct (_ =? _)|].
    by rewrite Hout, Helems, <- app_assoc.
Qed.

(** The loop over the rows, when every row has the length of the headers. *)
Lemma rowsLoop_rows headers rows :
  Forall (λ fields, length fields = length headers) rows →
  ∀ i elements,
    rowsLoop headers rows i elements
    = inl (elements ++ (elementOfRow headers <$> rows)).
Proof.
  induction 1 as [|row rows Hrow Hall IH]; intros i elements.
  - simpl. by rewrite app_nil_r.
  - cbn [rowsLoop fmap list_fmap].
    rewrite bool_decide_eq_false_2 by (intros Hne; by apply Hne).
    rewrite IH. by rewrite <- app_assoc.
Qed.

(** X14. The first parser returns one element per data row, in the order
    of the file, each read under the headers of the file: it does not
    reuse records and it validates nothing, so also a row without a width
    gives an element. *)
Theorem legacy_ParseCSV_one_element_per_row fs path file headers rows :
  os.Open fs path = Some file →
  os.File.records file = Some headers :: (Some <$> rows) →
  rows ≠ [] →
  Forall (λ fields, length fields = length headers) rows →
  ParseCSV fs path = inl (elementOfRow headers <$> rows).
Proof.
  intros Hopen Hrec Hne Hall. unfold ParseCSV. rewrite Hopen, Hrec.
  cbn [ReadAll]. unfold csv.read_record, csv.NewReader.
  cbn [csv.Reader.ReuseRecord csv.Reader.FieldsPerRecord
       csv.Reader.lastRecord csv.Reader.TrimLeadingSpace csv.fill
       Z.ltb Z.eqb Z.compare app length].
  edestruct (ReadAll_rows (length headers) rows
               (csv.Reader.mk (Z.of_nat (length headers)) true false None)
               [headers] [csv.mkSlice 0 (length headers)])
    as (h' & recs' & -> & Hout); [done|done|done| |].
  { apply Forall_singleton. simpl. lia. }
  assert (Hfirst : csv.elems [headers] (csv.mkSlice 0 (length headers))
                   = headers) by apply (elems_new []).
  cbn [fmap list_fmap] in Hout. rewrite Hfirst in Hout.
  assert (Hlen : length recs' = S (length rows)).
  { rewrite <- (length_fmap (csv.elems h') recs'), Hout. done. }
  destruct rows as [|row rows]; [done|].
  rewrite (proj2 (Nat.ltb_ge _ _)) by (rewrite Hlen; simpl; lia).
  rewrite Hout. cbn [app]. by rewrite rowsLoop_rows.
Qed.

End legacy_parser.

Section legacy_parser_errors.

Context `{Externals}.

Import legacy.

(** The records that [ReadAll] returns all have the number of fields that
    the reader has fixed. *)
Lemma ReadAll_field_count n input :
  (0 < n)%nat →
  ∀ reader h recs h' recs',
    csv.Reader.ReuseRecord reader = false →
    csv.Reader.FieldsPerRecord reader = Z.of_nat n →
    Forall (λ s, length (csv.elems h s) = n ∧ (csv.arr s < length h)%nat)
           recs →
    ReadAll input reader h recs = (h', inl recs') →
    Forall (λ fields, length fields = n) (csv.elems h' <$> recs').
Proof.
  intros Hn.
  induction input as [|next input IH];
    intros reader h recs h' recs' Hreuse Hfpr Hrecs; cbn [ReadAll].
  { intros [= <- <-]. apply Forall_fmap. eapply Forall_impl; [exact Hrecs|].
    by intros s [Hs _]. }
  destruct next as [fields|]; [|discriminate].
  unfold csv.read_record. rewrite Hreuse, Hfpr. cbn [csv.fill].
  rewrite (proj2 (Z.ltb_lt 0 (Z.of_nat n))) by lia.
  case_bool_decide as Hf; [discriminate|].
  assert (Hf' : length fields = n) by lia.
  apply IH; [done|done|].
  apply Forall_app. split.
  - eapply Forall_impl; [exact Hrecs|]. intros s [Hs Harr].
    rewrite elems_alloc by done. rewrite length_app. simpl. split; [done|lia].
  - apply Forall_singleton. rewrite elems_new, length_app. simpl.
    split; [done|lia].
Qed.

(** X15. The first parser never reports a row with a wrong number of
    columns.  Its reader keeps the default [FieldsPerRecord], so
    [ReadAll] itself fails on such a row; the test of the loop that
    returns [row ... has incorrect number of columns] cannot succeed.
    (A record of encoding/csv has one field at least: the hypothesis says
    so of the first record.) *)
Theorem legacy_column_error_is_unreachable fs path row :
  (∀ file, os.Open fs path = Some file →
           head (os.File.records file) ≠ Some (Some [])) →
  ParseCSV fs path ≠ inr (ErrColumns row).
Proof.
  intros Hfirst. unfold ParseCSV.
  destruct (os.Open fs path) as [file|] eqn:Hopen; [|discriminate].
  specialize (Hfirst file eq_refl).
  destruct (os.File.records file) as [|[headers|] input];
    [discriminate| |discriminate].
  assert (Hn : (0 < length headers)%nat).
  { destruct headers; [done|simpl; lia]. }
  destruct (ReadAll (Some headers :: input) _ [] []) as [h' [recs'|err]] eqn:Hrun;
    [|discriminate].
  revert Hrun. cbn [ReadAll]. unfold csv.read_record, csv.NewReader.
  cbn [csv.Reader.ReuseRecord csv.Reader.FieldsPerRecord
       csv.Reader.lastRecord csv.Reader.TrimLeadingSpace csv.fill
       Z.ltb Z.eqb Z.compare app length].
  intros Hrun.
  apply (ReadAll_field_count (length headers)) in Hrun; [|done|done|done|].
  - destruct (length recs' <? 2)%nat; [discriminate|].
    destruct (csv.elems h' <$> recs') as [|first rows]; [discriminate|].
    apply Forall_cons in Hrun as [Hhead Hrows].
    rewrite rowsLoop_rows; [discriminate|].
    eapply Forall_impl; [exact Hrows|]. intros fields Hfields. simpl in *.
    congruence.
  - apply Forall_singleton. split; [|simpl; lia].
    f_equal. apply (elems_new []).
Qed.

End legacy_parser_errors.

(** ** The generator *)

Section generator_more.

Context `{Externals}.

Import models models.PDFElement generators fpdf.

Lemma processTextElement_appends order pdf element data :
  ∃ calls, processTextElement order pdf element data = pdf ++ calls.
Proof.
  unfold processTextElement, setFont. cbv zeta.
  destruct (calculateRotationPoint element) as [rotateX rotateY].
  destruct (Color.IsSet (Style.TextColor (Style element))),
    (negb (Style.RotateDegree (Style element) =? 0)),
    (bool_decide (Method element = "MultiCell"));
    rewrite <- ?app_assoc; by eexists.
Qed.

Lemma processBoxElement_appends pdf element :
  ∃ calls, processBoxElement pdf element = pdf ++ calls.
Proof.
  unfold processBoxElement. cbv zeta.
  destruct (Color.IsSet (Style.TextColor (Style element))),
    (Color.IsSet (Style.Background (Style element)));
    rewrite <- ?app_assoc; by eexists.
Qed.

(** The three methods that can fail either fail and draw nothing, or draw
    one image. *)
Lemma processImageElement_outcome fs pdf element data :
  (∃ err, processImageElement fs pdf element data = (pdf, Some err))
  ∨ (∃ file, processImageElement fs pdf element data
             = (draw_image pdf file element, None)).
Proof.
  unfold processImageElement. cbv zeta.
  set (imagePath :=
         if is_empty (Style.ImageSrc (Style element)) && _ then _ else _).
  destruct (is_empty imagePath); [left; by eexists|].
  destruct (os.Stat fs imagePath); [right|left]; by eexists.
Qed.

Lemma processQRElement_outcome order pdf element data :
  (∃ err, processQRElement order pdf element data = (pdf, Some err))
  ∨ (∃ file, processQRElement order pdf element data
             = (draw_image pdf file element, None)).
Proof.
  unfold processQRElement. cbv zeta.
  set (content := if is_empty (GetTextContent element data) then _ else _).
  destruct (is_empty content); [left; by eexists|].
  destruct (negb (qrcode_Encode_ok content)); [left|right]; by eexists.
Qed.

Lemma processBarcodeElement_outcome order pdf element data :
  (∃ err, processBarcodeElement order pdf element data = (pdf, Some err))
  ∨ (∃ file, processBarcodeElement order pdf element data
             = (draw_image pdf file element, None)).
Proof.
  unfold processBarcodeElement. cbv zeta.
  set (content := if is_empty (GetTextContent element data) then _ else _).
  destruct (is_empty content); [left; by eexists|].
  destruct (negb (barcode_Encode_ok _ content)); [left|right]; by eexists.
Qed.

(** An element that [Validate] has accepted and that is no loop element is
    handed to the method of its type: the call returns, with the ledger as
    it was, and the document added to, or untouched when there is an
    error. *)
Lemma processElement_plain fuel fs order ledger pdf element e' data :
  Validate element = (e', None) →
  IsLoopElement e' = false →
  ∃ pdf' err,
    processElement (S fuel) fs order ledger pdf element data
    = Some (ledger, pdf', err)
    ∧ (∃ calls, pdf' = pdf ++ calls)
    ∧ (err ≠ None → pdf' = pdf).
Proof.
  intros Hv Hloop. cbn [processElement]. rewrite Hv, Hloop. cbv zeta.
  destruct (bool_decide (Type_ e' = ElementTypeText)).
  { destruct (processTextElement_appends order pdf e' data) as [calls ->].
    eexists _, _. split_and!; [done|by eexists|done]. }
  destruct (bool_decide (Type_ e' = ElementTypeBox)).
  { destruct (processBoxElement_appends pdf e') as [calls ->].
    eexists _, _. split_and!; [done|by eexists|done]. }
  destruct (bool_decide (Type_ e' = ElementTypeImage)).
  { destruct (processImageElement_outcome fs pdf e' data)
      as [[err ->]|[file ->]]; eexists _, _;
      (split_and!;
         [done
         |first [by (exists []; rewrite app_nil_r)
                |unfold draw_image; by eexists]
         |intros Herr; first [done | by destruct Herr]]). }
  destruct (bool_decide (Type_ e' = ElementTypeQR)).
  { destruct (processQRElement_outcome order pdf e' data)
      as [[err ->]|[file ->]]; eexists _, _;
      (split_and!;
         [done
         |first [by (exists []; rewrite app_nil_r)
                |unfold draw_image; by eexists]
         |intros Herr; first [done | by destruct Herr]]). }
  destruct (bool_decide (Type_ e' = ElementTypeBarcode)).
  { destruct (processBarcodeElement_outcome order pdf e' data)
      as [[err ->]|[file ->]]; eexists _, _;
      (split_and!;
         [done
         |first [by (exists []; rewrite app_nil_r)
                |unfold draw_image; by eexists]
         |intros Herr; first [done | by destruct Herr]]). }
  destruct (bool_decide (Type_ e' = ElementTypeTable));
    eexists _, _; (split_and!; [done|by (exists []; rewrite app_nil_r)|done]).
Qed.

(** X16. An element that fails draws nothing: when [processElement]
    returns an error, whichever it is (validation, the loop field, the
    array, the image, the encoders, the type), no call has been made on the
    document and the ledger is as before. *)
Theorem failed_element_draws_nothing fuel fs order ledger pdf element data
    ledger' pdf' err :
  processElement fuel fs order ledger pdf element data
  = Some (ledger', pdf', Some err) →
  ledger' = ledger ∧ pdf' = pdf.
Proof.
  destruct fuel as [|fuel]; [discriminate|].
  destruct (Validate element) as [e' [verr|]] eqn:Hv.
  { cbn [processElement]. rewrite Hv. by intros [= <- <- _]. }
  destruct (IsLoopElement e') eqn:Hloop.
  - cbn [processElement]. rewrite Hv, Hloop. unfold processLoopElement.
    destruct (strings.Split _ _) as [|a [|f [|? ?]]];
      try by intros [= <- <- _].
    destruct (data !! a) as [[| | | |items|]|]; try by intros [= <- <- _].
    by destruct (loop_items _ _ _ _ _ _ _ _ _) as [[[? ?] ?]|].
  - destruct (processElement_plain fuel fs order ledger pdf element e' data
                                   Hv Hloop)
      as (pdf1 & err1 & -> & _ & Hfail).
    intros [= <- <- ->]. split; [done|]. by apply Hfail.
Qed.

(** An element without a loop field is processed in one call. *)
Lemma processElement_no_loop fuel fs order ledger pdf element data :
  LoopField element = "" →
  ∃ calls err,
    processElement (S fuel) fs order ledger pdf element data
    = Some (ledger, pdf ++ calls, err).
Proof.
  intros Hloop.
  destruct (Validate element) as [e' [verr|]] eqn:Hv.
  { cbn [processElement]. rewrite Hv.
    exists [], (Some (ErrValidation verr)). by rewrite app_nil_r. }
  destruct (Validate_LoopField _ _ _ Hv) as (Hloop' & _).
  assert (Hno : IsLoopElement e' = false).
  { unfold IsLoopElement. by rewrite Hloop', Hloop. }
  destruct (processElement_plain fuel fs order ledger pdf element e' data
                                 Hv Hno)
    as (pdf1 & err1 & -> & [calls ->] & _).
  by eexists _, _.
Qed.

(** X17. A render of elements without loop fields always completes: the
    error of an element does not stop the loop over the elements, the
    ledger is left as it was, and the document is only added to. *)
Theorem render_without_loops_completes fuel fs order ledger pdf elements data :
  Forall (λ element, LoopField element = "") elements →
  ∃ calls,
    processElements (S fuel) fs order ledger pdf elements data
    = Some (ledger, pdf ++ calls).
Proof.
  intros Hall. revert pdf.
  induction Hall as [|element elements Hloop Hall IH]; intros pdf.
  { exists []. by rewrite app_nil_r. }
  cbn [processElements].
  destruct (processElement_no_loop fuel fs order ledger pdf element data Hloop)
    as (calls1 & err & ->).
  destruct (IH (pdf ++ calls1)) as [calls2 ->].
  exists (calls1 ++ calls2). by rewrite app_assoc.
Qed.

(** The loop over the items only adds to the document when the calls it
    makes do. *)
Lemma loop_items_extends self element data fieldName spacing items :
  (∀ ledger pdf e d ledger' pdf' err,
     self ledger pdf e d = Some (ledger', pdf', err) →
     ∃ calls, pdf' = pdf ++ calls) →
  ∀ ledger pdf y ledger' pdf' y',
    loop_items self element data fieldName spacing items ledger pdf y
    = Some (ledger', pdf', y') →
    ∃ calls, pdf' = pdf ++ calls.
Proof.
  intros Hself. induction items as [|item items IH];
    intros ledger pdf y ledger' pdf' y'; cbn [loop_items].
  { intros [= _ <- _]. exists []. by rewrite app_nil_r. }
  destruct (self ledger pdf _ _) as [[[ledger1 pdf1] err1]|] eqn:Hrun;
    [|discriminate].
  apply Hself in Hrun as [calls1 ->].
  intros [calls2 ->]%IH. exists (calls1 ++ calls2). by rewrite app_assoc.
Qed.

Lemma processElement_extends fuel fs order :
  ∀ ledger pdf element data ledger' pdf' err,
    processElement fuel fs order ledger pdf element data
    = Some (ledger', pdf', err) →
    ∃ calls, pdf' = pdf ++ calls.
Proof.
  induction fuel as [|fuel IH];
    intros ledger pdf element data ledger' pdf' err; [discriminate|].
  assert (Hsame : ∀ (l : gmap string Q) (e : option Error),
            Some (ledger, pdf, e) = Some (l, pdf', err)
            → ∃ calls, pdf' = pdf ++ calls).
  { intros l e [= _ <- _]. exists []. by rewrite app_nil_r. }
  destruct (Validate element) as [e' [verr|]] eqn:Hv.
  { cbn [processElement]. rewrite Hv. apply Hsame. }
  destruct (IsLoopElement e') eqn:Hloop.
  - cbn [processElement]. rewrite Hv, Hloop. unfold processLoopElement.
    destruct (strings.Split _ _) as [|a [|f [|? ?]]]; try apply Hsame.
    destruct (data !! a) as [[| | | |items|]|]; try apply Hsame.
    destruct (loop_items _ _ _ _ _ _ _ _ _) as [[[l1 pdf1] y1]|] eqn:Hitems;
      [|discriminate].
    intros [= _ <- _]. by eapply loop_items_extends.
  - destruct (processElement_plain fuel fs order ledger pdf element e' data
                                   Hv Hloop)
      as (pdf1 & err1 & -> & Hcalls & _).
    by intros [= _ <- _].
Qed.

Lemma processElements_extends fuel fs order elements data :
  ∀ ledger pdf ledger' pdf',
    processElements fuel fs order ledger pdf elements data
    = Some (ledger', pdf') →
    ∃ calls, pdf' = pdf ++ calls.
Proof.
  induction elements as [|element elements IH];
    intros ledger pdf ledger' pdf'; cbn [processElements].
  { intros [= _ <-]. exists []. by rewrite app_nil_r. }
  destruct (processElement _ _ _ _ _ _ _) as [[[l1 pdf1] err1]|] eqn:Hrun;
    [|discriminate].
  apply processElement_extends in Hrun as [calls1 ->].
  intros [calls2 ->]%IH. exists (calls1 ++ calls2). by rewrite app_assoc.
Qed.

Lemma setupFonts_extends fs order fc pdf :
  ∃ calls, (setupFonts fs order fc pdf).2 = pdf ++ calls.
Proof.
  unfold setupFonts.
  destruct (cache.IsSystemLoaded fc); [exists []; by rewrite app_nil_r|].
  assert (Hfold : ∀ l fc0 pdf0,
    ∃ calls,
      (fold_left
         (λ '(fc, pdf) '(fontName, fontFile),
            if negb (cache.IsLoaded fc fontName) then
              match os.Stat fs (fontPath fontFile) with
              | Some _ =>
                  (cache.MarkLoaded fontName fc,
                   pdf ++ [if bool_decide (fontName = "TahomaB")
                           then AddUTF8Font "Tahoma" "B" fontFile
                           else AddUTF8Font fontName "" fontFile])
              | None => (fc, pdf)
              end
            else (fc, pdf))
         l (fc0, pdf0)).2 = pdf0 ++ calls).
  { induction l as [|[fontName fontFile] l IHl]; intros fc0 pdf0.
    - exists []. by rewrite app_nil_r.
    - cbn [fold_left].
      destruct (negb _); [destruct (os.Stat fs _)|]; try apply IHl.
      destruct (IHl (cache.MarkLoaded fontName fc0)
                    (pdf0 ++ [if bool_decide (fontName = "TahomaB")
                              then AddUTF8Font "Tahoma" "B" fontFile
                              else AddUTF8Font fontName "" fontFile]))
        as [calls ->].
      rewrite <- app_assoc. by eexists. }
  destruct (Hfold (order fonts) fc pdf) as [calls Hcalls].
  destruct (fold_left _ _ _) as [fc1 pdf1]. cbn [snd] in *. subst pdf1.
  rewrite <- app_assoc. by eexists.
Qed.

(** X18. A render adds to the document that it took from the pool and
    never clears it: the document that [GeneratePDFToBytes] writes out,
    and puts back into the pool, holds every call made on it before the
    render, then the new page and the calls of the render.  A document
    that comes out of the pool a second time carries the pages of the
    render before. *)
Theorem render_extends_the_pooled_document fuel fs font_order order fc ledger
    pdf elements data fc' ledger' pdf' :
  GeneratePDFToBytes fuel fs font_order order fc ledger pdf elements data
  = Some (fc', ledger', pdf') →
  ∃ calls, pdf' = pdf ++ AddPage :: calls.
Proof.
  unfold GeneratePDFToBytes. cbv zeta.
  destruct (setupFonts_extends fs font_order fc (pdf ++ [AddPage]))
    as [calls1 Hfonts].
  destruct (setupFonts _ _ _ _) as [fc1 pdf1]. cbn [snd] in Hfonts. subst pdf1.
  destruct (processElements _ _ _ _ _ _ _) as [[l2 pdf2]|] eqn:Hrun;
    [|discriminate].
  apply processElements_extends in Hrun as [calls2 ->].
  intros [= _ _ <-]. exists (calls1 ++ calls2).
  by rewrite <- !app_assoc.
Qed.

End generator_more.

(** ** Codes, rotation, defaults and helpers *)

Section content_facts.

Context `{Externals}.

Import models models.PDFElement generators fpdf utils.

Lemma Contains_empty_placeholder key :
  strings.Contains "" (placeholder key) = false.
Proof. unfold placeholder. by rewrite !append_cons. Qed.

(** Nothing is resolved in the empty text. *)
Lemma replaceVariables_empty order variableName data :
  replaceVariables order "" variableName data = "".
Proof.
  unfold replaceVariables. destruct (negb _).
  - apply ReplaceVariablesInArray_no_placeholder, Contains_empty_placeholder.
  - apply ReplaceVariables_no_placeholder, Contains_empty_placeholder.
Qed.


(** X20. The second look for a content never finds one: when
    [GetTextContent] gives the empty string for a QR code or a barcode,
    the content of the template is empty too, the resolution of the
    variables in it gives the empty string again, and the element fails
    with the error of an empty content. *)
Theorem empty_code_content_is_not_rescued order pdf element data :
  GetTextContent element data = "" →
  (Type_ element = ElementTypeQR →
   processQRElement order pdf element data = (pdf, Some ErrQREmpty))
  ∧ (Type_ element = ElementTypeBarcode →
     processBarcodeElement order pdf element data
     = (pdf, Some ErrBarcodeEmpty)).
Proof.
  intros Hempty. split; intros Ht.
  - assert (Hc : QRContent element = "").
    { revert Hempty. unfold GetTextContent. rewrite Ht.
      destruct (is_empty (QRContent element)) eqn:Hq;
        [intros _; by apply is_empty_true|].
      apply is_empty_false in Hq. cbn. done. }
    unfold processQRElement. cbv zeta. rewrite Hempty, Hc.
    change (is_empty "") with true. cbv beta iota.
    rewrite replaceVariables_empty. done.
  - assert (Hc : BarcodeContent element = "").
    { revert Hempty. unfold GetTextContent. rewrite Ht.
      destruct (is_empty (BarcodeContent element)) eqn:Hq;
        [intros _; by apply is_empty_true|].
      apply is_empty_false in Hq. cbn. done. }
    unfold processBarcodeElement. cbv zeta. rewrite Hempty, Hc.
    change (is_empty "") with true. cbv beta iota.
    rewrite replaceVariables_empty. done.
Qed.

(** X21. The point about which a text is rotated lies in the box of the
    element, for each of the rotation types (the middle of the left edge,
    the middle of the top edge, the centre), in both renderers. *)
Theorem rotation_point_lies_in_the_box element el y :
  (0 <= Size.Width (Size element))%Q →
  (0 <= Size.Height (Size element))%Q →
  (0 <= legacy.PDFElement.Width el)%Q →
  (0 <= legacy.PDFElement.Height el)%Q →
  let p := calculateRotationPoint element in
  let q := legacy.rotationPoint el y in
  (Position.X (Position element) <= p.1
   ∧ p.1 <= Position.X (Position element) + Size.Width (Size element)
   ∧ Position.Y (Position element) <= p.2
   ∧ p.2 <= Position.Y (Position element) + Size.Height (Size element)
   ∧ legacy.PDFElement.X el <= q.1
   ∧ q.1 <= legacy.PDFElement.X el + legacy.PDFElement.Width el
   ∧ y <= q.2
   ∧ q.2 <= y + legacy.PDFElement.Height el)%Q.
Proof.
  intros Hw Hh Hw' Hh'. unfold calculateRotationPoint, legacy.rotationPoint.
  cbv zeta.
  destruct (bool_decide (Style.RotateType (Style element) = "left"));
    [|destruct (bool_decide (Style.RotateType (Style element) = "top"))];
    (destruct (bool_decide (legacy.PDFElement.RotateType el = "left"));
      [|destruct (bool_decide (legacy.PDFElement.RotateType el = "top"))]);
    cbn [fst snd]; unfold Qdiv; change (/ 2)%Q with (1 # 2)%Q;
    split_and!; lra.
Qed.

End content_facts.

Section parser_defaults.

Context `{Externals}.

Import models models.PDFElement parsers utils.

(** X22. The element made from a row has its defaults filled in,
    whatever the row holds: a font family, a font size that is not 0, an
    alignment that is L, C or R, a barcode format, and one of the six
    element types. *)
Theorem created_element_has_its_defaults headers record :
  let e := createElementFromRow headers record in
  Font.Family (Style.Font (Style e)) ≠ ""
  ∧ ¬ (Font.Size (Style.Font (Style e)) == 0)%Q
  ∧ Style.Align (Style e) ∈ ["L"; "C"; "R"]
  ∧ BarcodeFormat e ≠ ""
  ∧ Type_ e ∈ [ElementTypeText; ElementTypeBox; ElementTypeImage;
               ElementTypeQR; ElementTypeBarcode; ElementTypeTable].
Proof.
  intros e.
  assert (Hco : ∀ s d, d ≠ "" → Coalesce [s; d] ≠ "").
  { intros s d Hd. unfold Coalesce. cbn [find].
    destruct (is_empty s) eqn:Hs; cbn [negb].
    - rewrite (proj2 (is_empty_false d) Hd). done.
    - by apply is_empty_false in Hs. }
  split_and!.
  - by apply Hco.
  - change (Font.Size (Style.Font (Style e)))
      with (if float64.eqb (ParseFloat (get (row_data headers record)
                                            "fontSize")) 0
            then 10%Q
            else ParseFloat (get (row_data headers record) "fontSize")).
    destruct (float64.eqb _ 0) eqn:Hz; [done|].
    unfold float64.eqb in Hz. intros Heq. apply Qeq_bool_iff in Heq.
    congruence.
  - change (Style.Align (Style e))
      with (NormalizeAlign (get (row_data headers record) "align")).
    unfold NormalizeAlign. cbv zeta.
    repeat (destruct (_ || _); [set_solver|]). set_solver.
  - by apply Hco.
  - change (Type_ e)
      with (parseElementType (get (row_data headers record) "type")
                             (get (row_data headers record) "method")).
    unfold parseElementType. cbv zeta.
    unfold ElementTypeText, ElementTypeBox, ElementTypeImage, ElementTypeQR,
      ElementTypeBarcode, ElementTypeTable.
    repeat (first [destruct (negb _) | destruct (bool_decide _)
                  | destruct (_ || _)];
            try (cbn; set_solver)).
Qed.

End parser_defaults.

Section helper_facts.

Context `{Externals}.

Import utils.

Lemma length_slice_to n s :
  (n ≤ String.length s)%nat → String.length (strings.slice_to n s) = n.
Proof.
  revert s. induction n as [|n IH]; intros s Hn; [by destruct s|].
  destruct s as [|c s]; [simpl in Hn; lia|].
  cbn [strings.slice_to String.length]. f_equal. apply IH.
  simpl in Hn. lia.
Qed.

(** X23. [TruncateString] returns a string that fits as it is; it cuts a
    longer one to [maxLen] bytes and adds three dots, so that the result
    has [maxLen + 3] bytes, which is more than the string had when it was
    less than three bytes too long; for a negative [maxLen] the slice
    expression panics. *)
Theorem TruncateString_lengths s maxLen :
  (Z.of_nat (String.length s) ≤ maxLen → TruncateString s maxLen = Some s)
  ∧ (0 ≤ maxLen < Z.of_nat (String.length s) →
     ∃ r, TruncateString s maxLen = Some r
          ∧ Z.of_nat (String.length r) = maxLen + 3)
  ∧ (maxLen < 0 → TruncateString s maxLen = None).
Proof.
  unfold TruncateString. split_and!.
  - intros Hfit. by rewrite (proj2 (Z.leb_le _ _)).
  - intros [Hpos Hlong].
    rewrite (proj2 (Z.leb_gt _ _)) by lia.
    rewrite (proj2 (Z.ltb_ge _ _)) by lia.
    eexists. split; [done|].
    rewrite length_append, length_slice_to by lia. simpl. lia.
  - intros Hneg.
    rewrite (proj2 (Z.leb_gt _ _)) by lia.
    by rewrite (proj2 (Z.ltb_lt _ _)).
Qed.

Lemma prefix_refl s : String.prefix s s = true.
Proof.
  induction s as [|c s IH]; [done|].
  change (String.prefix (String c s) (String c s))
    with (if ascii_dec c c then String.prefix s s else false).
  by destruct (ascii_dec c c).
Qed.

Lemma replace_from_skipped old new k s :
  (String.length s ≤ k)%nat → strings.replace_from old new k s = "".
Proof.
  revert k. induction s as [|c s IH]; intros k Hk; [done|].
  destruct k as [|k]; [simpl in Hk; lia|].
  cbn [strings.replace_from]. apply IH. simpl in Hk. lia.
Qed.

Lemma ReplaceAll_whole old new :
  old ≠ "" → strings.ReplaceAll old old new = new.
Proof.
  destruct old as [|c old]; [done|]. intros _.
  unfold strings.ReplaceAll. cbn [strings.replace_from].
  rewrite prefix_refl.
  rewrite replace_from_skipped by (simpl; lia).
  apply append_nil_r.
Qed.

(** X24. A text that is the placeholder of a key of the data resolves to
    the value of the key, printed with [%v]: the key as it is written is
    looked up first, before any key is compared up to case, and the order
    in which the data are visited plays no part. *)
Theorem placeholder_of_a_key_resolves order name data val :
  negb (strings.HasPrefix name "[") || negb (strings.HasSuffix name "]")
  = true →
  data !! name = Some val →
  ReplaceVariablesInArray order (placeholder name) name data = fmt_Sprint val.
Proof.
  intros Hsingle Hkey. unfold ReplaceVariablesInArray. rewrite Hsingle.
  unfold replace_one. rewrite Hkey. apply ReplaceAll_whole.
  unfold placeholder. by rewrite !append_cons.
Qed.

End helper_facts.

(** ** The further properties at work on the examples *)

Section more_examples_facts.

Import examples.

Local Existing Instance reference.externals.

Lemma Get_removes_stale_entry_witness :
  cache.result (cache.Get newer_files 20 21 "t.csv" warm_cache) = None
  ∧ cache.final (cache.Get newer_files 20 21 "t.csv" warm_cache)
    = cache.TemplateCache.set_entries
        (delete "t.csv" (cache.TemplateCache.entries warm_cache)) warm_cache.
Proof.
  apply (Get_removes_stale_entry newer_files 20 21 "t.csv" warm_cache
           (cache.CacheEntry.mk [] "" 10 10 5)).
  - reflexivity.
  - right. left. eexists. split; [reflexivity|]. simpl. lia.
Defined.

Lemma Set_then_Get_witness :
  cache.result
    (cache.Get files 30 31 "t.csv"
       (cache.final
          (cache.Set_ reference.element_String files order_entries 10 10
                      "t.csv" [plain_text] small_cache)))
  = Some [plain_text].
Proof.
  apply (Set_then_Get reference.element_String files order_entries 10 10 30 31
           "t.csv" [plain_text] small_cache template).
  - vm_compute. split_and!; [discriminate|reflexivity|discriminate].
  - simpl. lia.
  - apply range_ok_map_to_list.
  - reflexivity.
  - intros key entry Hkey. simpl in Hkey. by rewrite lookup_empty in Hkey.
  - simpl. lia.
Defined.

Lemma Set_replaces_in_place_witness :
  cache.TemplateCache.entries
    (cache.final
       (cache.Set_ reference.element_String files order_entries 20 20 "t.csv"
                   [plain_text] warm_cache))
  = <["t.csv" :=
        cache.CacheEntry.mk [plain_text]
          (cache.calculateHash reference.element_String [plain_text]) 20 20
          (os.File.ModTime template)]>
      (cache.TemplateCache.entries warm_cache).
Proof.
  apply (Set_replaces_in_place reference.element_String files order_entries
           20 20 "t.csv" [plain_text] warm_cache template).
  - vm_compute. split_and!; [discriminate|reflexivity|discriminate].
  - eexists. reflexivity.
  - reflexivity.
Defined.

Lemma zero_capacity_keeps_nothing_witness :
  cache.TemplateCache.entries
    (cache.final
       (cache.Set_ reference.element_String files order_entries 10 10 "t.csv"
                   [plain_text] (cache.NewTemplateCache 0 1000)))
  = ∅.
Proof.
  apply (zero_capacity_keeps_nothing reference.element_String files
           order_entries 10 10 "t.csv" [plain_text]
           (cache.NewTemplateCache 0 1000)).
  - reflexivity.
  - reflexivity.
  - apply range_ok_map_to_list.
Defined.

Lemma cleanup_tick_removes_expired_witness :
  let tc' := cache.final (cache.cleanup_tick order_entries late warm_cache) in
  cache.TemplateCache.entries tc'
  = filter (λ kv, ¬ (cache.TemplateCache.ttl warm_cache
                     < late - cache.CacheEntry.CreatedAt kv.2))
           (cache.TemplateCache.entries warm_cache)
  ∧ cache.TemplateCache.maxSize tc' = cache.TemplateCache.maxSize warm_cache
  ∧ cache.TemplateCache.ttl tc' = cache.TemplateCache.ttl warm_cache.
Proof.
  exact (cleanup_tick_removes_expired order_entries late warm_cache
           range_ok_map_to_list).
Defined.

Lemma failed_parse_is_not_cached_witness :
  let tc' :=
    cache.final
      (parsers.ParseCSV reference.element_String files order_entries 1 2 3 4
                        "bad.csv" warm_cache) in
  cache.TemplateCache.entries tc' !! "bad.csv" = None
  ∧ ∀ key, key ≠ "bad.csv" →
      cache.TemplateCache.entries tc' !! key
      = cache.TemplateCache.entries warm_cache !! key.
Proof.
  apply (failed_parse_is_not_cached reference.element_String files
           order_entries 1 2 3 4 "bad.csv" warm_cache
           (parsers.ErrRow 2 csv.ErrFieldCount)).
  reflexivity.
Defined.

Lemma cached_template_is_served_unread_witness :
  cache.result
    (parsers.ParseCSV reference.element_String files order_entries 20 21 22 23
                      "t.csv" warm_cache)
  = parsers.Ok []
  ∧ cache.TemplateCache.entries
      (cache.final
         (parsers.ParseCSV reference.element_String files order_entries
                           20 21 22 23 "t.csv" warm_cache))
    = <["t.csv" := cache.CacheEntry.set_AccessedAt 21
                     (cache.CacheEntry.mk [] "" 10 10 5)]>
        (cache.TemplateCache.entries warm_cache).
Proof.
  apply (cached_template_is_served_unread reference.element_String files
           order_entries 20 21 22 23 "t.csv" warm_cache
           (cache.CacheEntry.mk [] "" 10 10 5) template).
  - reflexivity.
  - reflexivity.
  - simpl. lia.
  - simpl. lia.
Defined.

Lemma missing_fonts_are_never_retried_witness :
  generators.setupFonts ∅ map_to_list cache.NewFontCache [fpdf.AddPage]
  = (cache.MarkSystemLoaded cache.NewFontCache,
     [fpdf.AddPage] ++ [fpdf.SetFont "Tahoma" "" 10])
  ∧ ∀ fs' order' pdf',
      generators.setupFonts fs' order'
        (generators.setupFonts ∅ map_to_list cache.NewFontCache
                               [fpdf.AddPage]).1 pdf'
      = ((generators.setupFonts ∅ map_to_list cache.NewFontCache
                                [fpdf.AddPage]).1, pdf').
Proof.
  apply (missing_fonts_are_never_retried ∅ map_to_list cache.NewFontCache
           [fpdf.AddPage]).
  - apply range_ok_map_to_list.
  - reflexivity.
  - reflexivity.
  - reflexivity.
Defined.

Lemma setupFonts_registers_both_faces_witness :
  ∃ added,
    (generators.setupFonts font_files map_to_list cache.NewFontCache []).2
    = [] ++ added ++ [fpdf.SetFont "Tahoma" "" 10]
    ∧ added ≡ₚ [fpdf.AddUTF8Font "Tahoma" "" "tahoma.ttf";
                fpdf.AddUTF8Font "Tahoma" "B" "tahomabd.TTF"]
    ∧ cache.IsLoaded
        (generators.setupFonts font_files map_to_list cache.NewFontCache []).1
        "Tahoma" = true
    ∧ cache.IsLoaded
        (generators.setupFonts font_files map_to_list cache.NewFontCache []).1
        "TahomaB" = true.
Proof.
  apply (setupFonts_registers_both_faces font_files map_to_list
           cache.NewFontCache []).
  - apply range_ok_map_to_list.
  - reflexivity.
  - reflexivity.
  - reflexivity.
  - eexists. reflexivity.
  - eexists. reflexivity.
Defined.

Lemma parser_returns_no_element_witness :
  ∃ els,
    parsers.parseCSVFile placed_files "placed.csv" = parsers.Ok els ∧ els = [].
Proof.
  destruct (parsers.parseCSVFile placed_files "placed.csv") as [els|err] eqn:Hp.
  - exists els. split; [reflexivity|].
    apply (parser_returns_no_element placed_files "placed.csv" els);
      [reflexivity|exact Hp].
  - vm_compute in Hp. discriminate.
Defined.

Lemma ParseCSVFromReader_agrees_with_the_file_witness :
  parsers.ParseCSVFromReader (os.File.records placed_template)
  = parsers.parseCSVFile placed_files "placed.csv".
Proof.
  apply (ParseCSVFromReader_agrees_with_the_file placed_files "placed.csv"
           placed_template).
  reflexivity.
Defined.

Lemma legacy_ParseCSV_one_element_per_row_witness :
  legacy.ParseCSV placed_files "placed.csv"
  = inl (legacy.elementOfRow placed_headers <$> [placed_row]).
Proof.
  apply (legacy_ParseCSV_one_element_per_row placed_files "placed.csv"
           placed_template placed_headers [placed_row]).
  - reflexivity.
  - reflexivity.
  - discriminate.
  - repeat constructor.
Defined.

Lemma legacy_column_error_is_unreachable_witness :
  legacy.ParseCSV files "bad.csv" ≠ inr (legacy.ErrColumns 2).
Proof.
  apply (legacy_column_error_is_unreachable files "bad.csv" 2).
  intros file Hopen. vm_compute in Hopen. injection Hopen as <-.
  discriminate.
Defined.

Lemma failed_element_draws_nothing_witness :
  ∃ ledger' pdf',
    generators.processElement 1 ∅ order_data ∅ [fpdf.AddPage] qr_element ∅
    = Some (ledger', pdf', Some generators.ErrQREmpty)
    ∧ ledger' = ∅ ∧ pdf' = [fpdf.AddPage].
Proof.
  destruct (generators.processElement 1 ∅ order_data ∅ [fpdf.AddPage]
                                      qr_element ∅)
    as [[[ledger' pdf'] [err|]]|] eqn:Hrun;
    [|vm_compute in Hrun; discriminate..].
  assert (Herr : err = generators.ErrQREmpty).
  { vm_compute in Hrun. by injection Hrun as _ _ <-. }
  subst err. exists ledger', pdf'. split; [reflexivity|].
  exact (failed_element_draws_nothing 1 ∅ order_data ∅ [fpdf.AddPage]
           qr_element ∅ ledger' pdf' generators.ErrQREmpty Hrun).
Defined.

Lemma render_without_loops_completes_witness :
  ∃ calls,
    generators.processElements 1 ∅ order_data ∅ [fpdf.AddPage]
                               [qr_element; plain_text] ∅
    = Some (∅, [fpdf.AddPage] ++ calls).
Proof.
  apply (render_without_loops_completes 0 ∅ order_data ∅ [fpdf.AddPage]
           [qr_element; plain_text] ∅).
  repeat constructor.
Defined.

Lemma render_extends_the_pooled_document_witness :
  ∃ fc' ledger' pdf' calls,
    generators.GeneratePDFToBytes 1 ∅ map_to_list order_data
      cache.NewFontCache ∅ [fpdf.AddPage; fpdf.SetXY 10 50] [plain_text] ∅
    = Some (fc', ledger', pdf')
    ∧ pdf' = [fpdf.AddPage; fpdf.SetXY 10 50] ++ fpdf.AddPage :: calls.
Proof.
  destruct (generators.GeneratePDFToBytes 1 ∅ map_to_list order_data
              cache.NewFontCache ∅ [fpdf.AddPage; fpdf.SetXY 10 50]
              [plain_text] ∅)
    as [[[fc' ledger'] pdf']|] eqn:Hrun; [|vm_compute in Hrun; discriminate].
  destruct (render_extends_the_pooled_document 1 ∅ map_to_list order_data
              cache.NewFontCache ∅ [fpdf.AddPage; fpdf.SetXY 10 50]
              [plain_text] ∅ fc' ledger' pdf' Hrun) as [calls Hcalls].
  exists fc', ledger', pdf', calls. split; [reflexivity|exact Hcalls].
Defined.

Lemma empty_code_content_is_not_rescued_witness :
  (models.PDFElement.Type_ qr_element = models.ElementTypeQR →
   generators.processQRElement order_data [] qr_element ∅
   = ([], Some generators.ErrQREmpty))
  ∧ (models.PDFElement.Type_ qr_element = models.ElementTypeBarcode →
     generators.processBarcodeElement order_data [] qr_element ∅
     = ([], Some generators.ErrBarcodeEmpty)).
Proof.
  apply (empty_code_content_is_not_rescued order_data [] qr_element ∅).
  reflexivity.
Defined.

Lemma rotation_point_lies_in_the_box_witness :
  let p := generators.calculateRotationPoint plain_text in
  let q := legacy.rotationPoint descriptions 50 in
  (10 <= p.1 ∧ p.1 <= 10 + 100 ∧ 50 <= p.2 ∧ p.2 <= 50 + 10
   ∧ 10 <= q.1 ∧ q.1 <= 10 + 100 ∧ 50 <= q.2 ∧ q.2 <= 50 + 10)%Q.
Proof.
  apply (rotation_point_lies_in_the_box plain_text descriptions 50);
    unfold Qle; simpl; lia.
Defined.

Lemma placeholder_of_a_key_resolves_witness :
  utils.ReplaceVariablesInArray order_data (utils.placeholder "total") "total"
                                {[ "total" := VString "12" ]}
  = fmt_Sprint (VString "12").
Proof.
  apply (placeholder_of_a_key_resolves order_data "total"
           {[ "total" := VString "12" ]} (VString "12")).
  - reflexivity.
  - reflexivity.
Defined.

End more_examples_facts.
